(** * libTAS: the savestate coordinator and the dlopen/dlsym interceptor

    A shallow embedding of [src/program/SaveState.cpp] (the controller
    side of the savestate protocol) and of the [dlopen]/[dlsym] hooks of
    the injected library, with the properties their specification states.

    The C++ code talks to a socket, to the file system and to the dynamic
    loader.  Each of these is an explicit component of a state record, and
    every call that leaves the program is appended to a chronological
    trace, so that "before" and "never" are statements about lists.

    - Part I embeds [SaveState::save], [load] and [postLoad].
    - Part II embeds [add_lib], [dlopen], [find_sym] and [dlsym]; the real
      loader is a parameter, and may call back into [dlsym].
    - Part III has the definitions the statements are made of, and the
      scenario of the specification.
    - Parts IV and V have the properties the specification states.
    - Part VI has further properties of the two files: of the paths and
      messages of a slot, of [save], [load] and [postLoad] one after the
      other, of [find_lib], and of [dlopen], [find_sym] and [dlsym] in
      the cases the specification leaves out.

    The headers the two files include are not at hand.  What is taken
    from them is marked "Modelled from the spec" where it is defined, or
    is a parameter of a section. *)

From stdpp Require Import gmap strings list pretty sorting.
From Stdlib Require Import ZArith Lia Ascii.

Local Open Scope Z_scope.

(** ** Part I: [SaveState.cpp] *)

(** *** Enumerations of the headers *)

(** Modelled from the spec: [SharedConfig.h] is not among the sources.
    The recording mode is compared for (in)equality only, against the
    three names the code uses. *)
Inductive RecordingMode : Set :=
| NO_RECORDING
| RECORDING_WRITE
| RECORDING_READ.

#[global] Instance RecordingMode_eq_dec : EqDecision RecordingMode.
Proof. solve_decision. Defined.

(** Modelled from the spec: [messages.h] is not among the sources.  The
    tags are the closed enumeration of the message table, under the names
    [SaveState.cpp] uses; [MSGB_OTHER] stands for any other tag the peer
    may answer with. *)
Inductive Message : Set :=
| MSGN_SAVESTATE_INDEX
| MSGN_SAVESTATE_PATH
| MSGN_OSD_MSG
| MSGN_SAVESTATE
| MSGN_LOADSTATE
| MSGN_CONFIG
| MSGN_EXPOSE
| MSGB_SAVING_SUCCEEDED
| MSGB_LOADING_SUCCEEDED
| MSGB_FRAMECOUNT_TIME
| MSGB_OTHER (code : Z).

#[global] Instance Message_eq_dec : EqDecision Message.
Proof. solve_decision. Defined.

(** Modelled from the spec: [SaveState.h] is not among the sources.  The
    error outcomes of the coordinator, under the names the code returns. *)
Inductive Error : Set :=
| ENOSTATE
| ENOSTATEMOVIEPREFIX
| ENOMOVIE
| EINPUTMISMATCH
| ENOLOAD.

#[global] Instance Error_eq_dec : EqDecision Error.
Proof. solve_decision. Defined.

(** The [int] the three operations return: literal [0], one of the error
    outcomes, or a message tag of the peer passed through.  The three
    kinds are kept apart, as the callers compare the value with one
    enumeration or the other. *)
Inductive Retval : Set :=
| RetZero
| RetErr (e : Error)
| RetMsg (m : Message).

#[global] Instance Retval_eq_dec : EqDecision Retval.
Proof. solve_decision. Defined.

(** *** Configuration and context *)

(** Modelled from the spec: [SharedConfig.h] and [Config.h] are not among
    the sources.  The two records have the fields [SaveState.cpp] reads
    and writes. *)
Record SharedConfig : Set := mkSharedConfig {
  recording : RecordingMode;
  savestate_settings : Z;
  osd : Z;
  movie_framecount : Z;
  initial_time_sec : Z;
  initial_time_nsec : Z
}.

Record Config : Set := mkConfig {
  savestatedir : string;
  sc : SharedConfig
}.

(** Modelled from the spec: [Context.h] is not among the sources, so the
    widths of the counters are not known; they are integers here. *)
Record Context : Set := mkContext {
  config : Config;
  gamename : string;
  framecount : Z;
  rerecord_count : Z;
  current_time_sec : Z;
  current_time_nsec : Z;
  movie_time_sec : Z;
  movie_time_nsec : Z
}.

(** Modelled from the spec: [SaveState.h] is not among the sources.  The
    savestate object has the members [SaveState.cpp] uses: [id] and
    [is_backtrack] are set by its owner, the strings are built on first
    use and then kept, and [state_framecount] is the member [framecount],
    renamed apart from the field of the context. *)
Record SaveState : Set := mkSaveState {
  id : Z;
  is_backtrack : bool;
  state_framecount : Z;
  path : string;
  pagemap_path : string;
  pages_path : string;
  movie_path : string;
  saving_msg : string;
  no_state_msg : string;
  loading_msg : string;
  loaded_msg : string
}.

(** [std::string::empty] *)
Definition empty (s : string) : bool := bool_decide (s = "").

(** [x & FLAG], used as a condition *)
Definition has_flag (x flag : Z) : bool := negb (Z.land x flag =? 0).

Definition buildPaths (context : Context) (this : SaveState) : SaveState :=
  let path' :=
    if empty (path this)
    then savestatedir (config context) +:+ "/" +:+ gamename context
           +:+ ".state" +:+ pretty (id this)
    else path this in
  let pagemap_path' :=
    if empty (pagemap_path this) then path' +:+ ".pm" else pagemap_path this in
  let pages_path' :=
    if empty (pages_path this) then path' +:+ ".p" else pages_path this in
  let movie_path' :=
    if empty (movie_path this)
    then savestatedir (config context) +:+ "/" +:+ gamename context
           +:+ ".movie" +:+ pretty (id this) +:+ ".ltm"
    else movie_path this in
  {| id := id this; is_backtrack := is_backtrack this;
     state_framecount := state_framecount this;
     path := path'; pagemap_path := pagemap_path';
     pages_path := pages_path'; movie_path := movie_path';
     saving_msg := saving_msg this; no_state_msg := no_state_msg this;
     loading_msg := loading_msg this; loaded_msg := loaded_msg this |}.

Definition buildMessages (this : SaveState) : SaveState :=
  let saving_msg' :=
    if empty (saving_msg this)
    then (if is_backtrack this then "Saving backtrack state"
          else "Saving state " +:+ pretty (id this))
    else saving_msg this in
  let no_state_msg' :=
    if empty (no_state_msg this)
    then "No savestate in slot " +:+ pretty (id this)
    else no_state_msg this in
  let loading_msg' :=
    if empty (loading_msg this)
    then (if is_backtrack this then "Loading backtrack state"
          else "Loading state " +:+ pretty (id this))
    else loading_msg this in
  let loaded_msg' :=
    if empty (loaded_msg this)
    then (if is_backtrack this then "Backtrack state loaded"
          else "State " +:+ pretty (id this) +:+ " loaded")
    else loaded_msg this in
  {| id := id this; is_backtrack := is_backtrack this;
     state_framecount := state_framecount this;
     path := path this; pagemap_path := pagemap_path this;
     pages_path := pages_path this; movie_path := movie_path this;
     saving_msg := saving_msg'; no_state_msg := no_state_msg';
     loading_msg := loading_msg'; loaded_msg := loaded_msg' |}.

Definition getMoviePath (this : SaveState) : string := movie_path this.

Definition set_state_framecount (n : Z) (this : SaveState) : SaveState :=
  {| id := id this; is_backtrack := is_backtrack this;
     state_framecount := n;
     path := path this; pagemap_path := pagemap_path this;
     pages_path := pages_path this; movie_path := movie_path this;
     saving_msg := saving_msg this; no_state_msg := no_state_msg this;
     loading_msg := loading_msg this; loaded_msg := loaded_msg this |}.

(** Assignments to the fields of [*context] that [postLoad] makes *)

Definition set_rerecord_count (n : Z) (c : Context) : Context :=
  mkContext (config c) (gamename c) (framecount c) n
    (current_time_sec c) (current_time_nsec c)
    (movie_time_sec c) (movie_time_nsec c).

Definition set_framecount (n : Z) (c : Context) : Context :=
  mkContext (config c) (gamename c) n (rerecord_count c)
    (current_time_sec c) (current_time_nsec c)
    (movie_time_sec c) (movie_time_nsec c).

Definition set_current_time_sec (n : Z) (c : Context) : Context :=
  mkContext (config c) (gamename c) (framecount c) (rerecord_count c)
    n (current_time_nsec c) (movie_time_sec c) (movie_time_nsec c).

Definition set_current_time_nsec (n : Z) (c : Context) : Context :=
  mkContext (config c) (gamename c) (framecount c) (rerecord_count c)
    (current_time_sec c) n (movie_time_sec c) (movie_time_nsec c).

Definition set_movie_time (sec nsec : Z) (c : Context) : Context :=
  mkContext (config c) (gamename c) (framecount c) (rerecord_count c)
    (current_time_sec c) (current_time_nsec c) sec nsec.

Definition set_movie_framecount (n : Z) (c : Context) : Context :=
  let s := sc (config c) in
  mkContext
    (mkConfig (savestatedir (config c))
       (mkSharedConfig (recording s) (savestate_settings s) (osd s) n
          (initial_time_sec s) (initial_time_nsec s)))
    (gamename c) (framecount c) (rerecord_count c)
    (current_time_sec c) (current_time_nsec c)
    (movie_time_sec c) (movie_time_nsec c).

(** The block of [postLoad] that runs in [RECORDING_WRITE] once the frame
    count and the time have been received *)
Definition update_movie_time (c : Context) : Context :=
  let c := set_movie_framecount (framecount c) c in
  let sec := current_time_sec c - initial_time_sec (sc (config c)) in
  let nsec := current_time_nsec c - initial_time_nsec (sc (config c)) in
  if bool_decide (nsec < 0)
  then set_movie_time (sec - 1) (nsec + 1000000000) c
  else set_movie_time sec nsec c.

(** *** A state-and-blocking monad

    A computation over a state [S] returns a value or never returns
    ([None]: it blocks, recurses without end, or the process dies);
    either way it leaves a state behind, with the calls it made before. *)

Definition M (S A : Type) : Type := S → option A * S.

#[global] Instance M_ret {S} : MRet (M S) := λ A a w, (Some a, w).

#[global] Instance M_bind {S} : MBind (M S) := λ A B k m w,
  match m w with
  | (Some a, w') => k a w'
  | (None, w') => (None, w')
  end.

Definition get {S} : M S S := λ w, (Some w, w).
Definition modify {S} (f : S → S) : M S unit := λ w, (Some tt, f w).
Definition stuck {S A} : M S A := λ w, (None, w).

(** [when c m]: the C++ [if (c) { m }] without an else branch *)
Definition when {S} (c : bool) (m : M S unit) : M S unit :=
  if c then m else mret tt.

(** *** Movies, files, the channel *)

Section coordinator.

Context {AllInputs : Type} `{EqDecision AllInputs}.

(** The flag constants of [SharedConfig.h], which is not among the sources *)
Variables SS_RAM OSD_MESSAGES : Z.

(** Modelled from the spec: [MovieFile.h] is not among the sources.  A
    movie is the ordered sequence of recorded input frames and the dirty
    flag [postLoad] reads and clears. *)
Record MovieFile : Type := mkMovieFile {
  input_list : list AllInputs;
  modifiedSinceLastStateLoad : bool
}.

(** A file of the savestate directory: a movie archive, stamped with the
    frame count it was saved at, or any other content (the snapshot files
    are written by the game process; their layout is not modelled). *)
Inductive File : Type :=
| MovieArchive (frames : Z) (inputs : list AllInputs)
| Plain (content : string).

(** What the peer has written to the socket and the coordinator has not
    read yet: message tags and 8-byte payload words. *)
Inductive Wire : Set :=
| WMsg (m : Message)
| WData (v : Z).

(** Every call that leaves the coordinator, in the order it is made *)
Inductive Effect : Type :=
| EvSendMessage (m : Message)
| EvSendData (v : Z)
| EvSendString (s : string)
| EvSendConfig (c : SharedConfig)
| EvReceiveMessage (m : Message)
| EvReceiveData (v : Z)
| EvAccess (file : string)
| EvSaveMovie (file : string) (frames : Z)
| EvLoadInputs (file : string)
| EvOfstream (file : string)
| EvCerr (s : string).

(** The coordinator and what is around it.  [writable] is the say of the
    operating system on whether a file can be opened for writing at a
    path (the directory is there, the permissions allow it); the
    coordinator does not change it. *)
Record Machine : Type := mkMachine {
  context : Context;
  movie : MovieFile;
  fs : gmap string File;
  inbox : list Wire;
  trace : list Effect;
  writable : string → bool
}.

Definition emit (e : Effect) : M Machine unit :=
  modify (λ w, mkMachine (context w) (movie w) (fs w) (inbox w) (trace w ++ [e])
                 (writable w)).

Definition set_context (c : Context) : M Machine unit :=
  modify (λ w, mkMachine c (movie w) (fs w) (inbox w) (trace w) (writable w)).

Definition set_movie (m : MovieFile) : M Machine unit :=
  modify (λ w, mkMachine (context w) m (fs w) (inbox w) (trace w) (writable w)).

Definition set_fs (f : gmap string File) : M Machine unit :=
  modify (λ w, mkMachine (context w) (movie w) f (inbox w) (trace w) (writable w)).

Definition set_inbox (i : list Wire) : M Machine unit :=
  modify (λ w, mkMachine (context w) (movie w) (fs w) i (trace w) (writable w)).

(** *** The message channel

    The sends of [sockethelpers.h] are calls that leave the coordinator:
    each is recorded with what it sends. *)

Definition sendMessage (m : Message) : M Machine unit := emit (EvSendMessage m).
Definition sendData (v : Z) : M Machine unit := emit (EvSendData v).
Definition sendString (s : string) : M Machine unit := emit (EvSendString s).
Definition sendConfig (c : SharedConfig) : M Machine unit := emit (EvSendConfig c).

(** Modelled from the spec: [sockethelpers.h] is not among the sources.
    A receive blocks until the peer has written; there is no timeout.
    Reading a tag where the peer wrote a payload word (or the converse)
    is outside the typed framing and does not return either. *)
Definition receiveMessage : M Machine Message :=
  w ← get;
  match inbox w with
  | WMsg m :: rest => set_inbox rest;; emit (EvReceiveMessage m);; mret m
  | _ => stuck
  end.

Definition receiveData : M Machine Z :=
  w ← get;
  match inbox w with
  | WData v :: rest => set_inbox rest;; emit (EvReceiveData v);; mret v
  | _ => stuck
  end.

(** *** The file system *)

(** [access(file, F_OK) == 0] *)
Definition access (file : string) : M Machine bool :=
  w ← get;
  emit (EvAccess file);;
  mret (bool_decide (is_Some (fs w !! file))).

(** [std::ofstream o(file); o.close();] leaves an empty file if the file
    can be opened.  If it cannot, the stream is in a failed state, which
    the code does not test, and nothing is written. *)
Definition ofstream (file : string) : M Machine unit :=
  w ← get;
  when (writable w file) (set_fs (<[file := Plain ""]> (fs w)));;
  emit (EvOfstream file).

(** *** [MovieFile] *)

(** Modelled from the spec: [MovieFile.cpp] is not among the sources.
    [MovieFile savedmovie(context)] is a movie without inputs. *)
Definition new_MovieFile : MovieFile := mkMovieFile [] false.

(** Modelled from the spec: [MovieFile::saveMovie] is not among the
    sources.  The current inputs are persisted to the movie file, stamped
    with the frame count given. *)
Definition saveMovie (moviefile : string) (frames : Z) : M Machine unit :=
  w ← get;
  set_fs (<[moviefile := MovieArchive frames (input_list (movie w))]> (fs w));;
  emit (EvSaveMovie moviefile frames).

(** Modelled from the spec: [MovieFile::loadInputs] is not among the
    sources.  It reloads the inputs of [this] from a movie file and
    returns 0, or returns a negative code when there is no movie to load
    at that name; the dirty flag is not its business. *)
Definition loadInputs (moviefile : string) (this : MovieFile) : M Machine (Z * MovieFile) :=
  w ← get;
  emit (EvLoadInputs moviefile);;
  match fs w !! moviefile with
  | Some (MovieArchive _ inputs) =>
      mret (0, mkMovieFile inputs (modifiedSinceLastStateLoad this))
  | _ => mret (-1, this)
  end.

(** Modelled from the spec: [MovieFile::isPrefix(movie)] is not among the
    sources.  Its callers say which movie is which: at
    [movie.isPrefix(savedmovie)] the source reads "Checking if the
    savestate movie is a prefix of our movie", so the argument is the
    candidate prefix and the receiver the movie it is compared with.  The
    relation is the one of the data model: A is a prefix of B iff every
    frame of A, up to the length of A, equals the corresponding frame
    of B. *)
Definition isPrefix (this other : MovieFile) : bool :=
  bool_decide (input_list other `prefix_of` input_list this).

(** Modelled from the spec: [MovieFile::isPrefix(movie, frame)] is not
    among the sources.  A is a prefix of B up to N iff the two agree at
    every frame index below min(N, len A, len B); as above the argument
    is A and the receiver is B. *)
Definition isPrefix_upto (this other : MovieFile) (frame : Z) : bool :=
  let n := Nat.min (Z.to_nat frame)
             (Nat.min (length (input_list other)) (length (input_list this))) in
  bool_decide (take n (input_list other) = take n (input_list this)).

(** *** [SaveState::save], [SaveState::load], [SaveState::postLoad]

    The methods read and write [*context], [movie] and the outside world
    through the state of the monad; [this] is passed in and, where the
    method assigns a field of it, returned. *)

Definition save (this : SaveState) : M Machine (Retval * SaveState) :=
  w ← get;
  let this := buildMessages (buildPaths (context w) this) in
  let sc := sc (config (context w)) in
  when (bool_decide (recording sc ≠ NO_RECORDING))
    (saveMovie (movie_path this) (framecount (context w)));;
  sendMessage MSGN_SAVESTATE_INDEX;;
  sendData (id this);;
  (if negb (has_flag (savestate_settings sc) SS_RAM)
   then sendMessage MSGN_SAVESTATE_PATH;; sendString (path this)
   else ofstream (pagemap_path this);; ofstream (pages_path this));;
  when (has_flag (osd sc) OSD_MESSAGES)
    (sendMessage MSGN_OSD_MSG;; sendString (saving_msg this));;
  sendMessage MSGN_SAVESTATE;;
  message ← receiveMessage;
  w ← get;
  let this :=
    if bool_decide (message = MSGB_SAVING_SUCCEEDED)
    then set_state_framecount (framecount (context w)) this
    else this in
  mret (RetMsg message, this).

(** The offer of [load] when a snapshot file is missing: [true] is the
    early [return ENOSTATEMOVIEPREFIX].  The source tests the recording
    mode and the movie file twice, one test nested in the other. *)
Definition load_offer (this : SaveState) : M Machine bool :=
  w ← get;
  let sc := sc (config (context w)) in
  if bool_decide (recording sc ≠ NO_RECORDING)
  then
    has_movie ← access (movie_path this);
    if (has_movie : bool)
    then
      if bool_decide (recording sc ≠ NO_RECORDING)
      then
        has_movie' ← access (movie_path this);
        if (has_movie' : bool)
        then
          '(ret, savedmovie) ← loadInputs (movie_path this) new_MovieFile;
          mret (bool_decide (ret = 0)
                && isPrefix_upto savedmovie (movie w) (framecount (context w)))
        else mret false
      else mret false
    else mret false
  else mret false.

(** The branch of [load] taken when a snapshot file is missing *)
Definition load_no_state (this : SaveState) : M Machine Retval :=
  w ← get;
  let sc := sc (config (context w)) in
  offer ← load_offer this;
  if (offer : bool) then mret (RetErr ENOSTATEMOVIEPREFIX)
  else
    when (has_flag (osd sc) OSD_MESSAGES)
      (sendMessage MSGN_OSD_MSG;; sendString (no_state_msg this));;
    mret (RetErr ENOSTATE).

(** The consistency check of [load]: [None] lets the load go on, [Some r]
    is the early [return r]. *)
Definition load_check (branch : bool) (this : SaveState) : M Machine (option Retval) :=
  w ← get;
  let sc := sc (config (context w)) in
  if bool_decide (recording sc = RECORDING_READ) && negb branch
  then
    '(ret, savedmovie) ← loadInputs (movie_path this) new_MovieFile;
    if bool_decide (ret < 0) then mret (Some (RetErr ENOMOVIE))
    else if negb (isPrefix (movie w) savedmovie)
    then
      when (has_flag (osd sc) OSD_MESSAGES)
        (sendMessage MSGN_OSD_MSG;; sendString "Savestate inputs mismatch");;
      mret (Some (RetErr EINPUTMISMATCH))
    else mret None
  else mret None.

Definition load (branch : bool) (this : SaveState) : M Machine (Retval * SaveState) :=
  w ← get;
  let this := buildMessages (buildPaths (context w) this) in
  let sc := sc (config (context w)) in
  sendMessage MSGN_SAVESTATE_INDEX;;
  sendData (id this);;
  has_pagemap ← access (pagemap_path this);
  has_pages ← (if (has_pagemap : bool) then access (pages_path this)
               else mret false);
  if negb has_pagemap || negb has_pages
  then r ← load_no_state this; mret (r, this)
  else
    when (negb (has_flag (savestate_settings sc) SS_RAM))
      (sendMessage MSGN_SAVESTATE_PATH;; sendString (path this));;
    refused ← load_check branch this;
    match refused with
    | Some r => mret (r, this)
    | None =>
        when (has_flag (osd sc) OSD_MESSAGES)
          (sendMessage MSGN_OSD_MSG;; sendString (loading_msg this));;
        sendMessage MSGN_LOADSTATE;;
        mret (RetZero, this)
    end.

Definition postLoad (branch : bool) (this : SaveState) : M Machine Retval :=
  message ← receiveMessage;
  let didLoad := bool_decide (message = MSGB_LOADING_SUCCEEDED) in
  message ←
    (if didLoad
     then
       w ← get;
       sendMessage MSGN_CONFIG;;
       sendConfig (sc (config (context w)));;
       when (bool_decide (recording (sc (config (context w))) = RECORDING_WRITE)
             || branch)
         ('(_, reloaded) ← loadInputs (movie_path this) (movie w);
          set_movie reloaded);;
       w ← get;
       when (modifiedSinceLastStateLoad (movie w))
         (set_context (set_rerecord_count (rerecord_count (context w) + 1)
                         (context w));;
          set_movie (mkMovieFile (input_list (movie w)) false));;
       receiveMessage
     else mret message);
  if bool_decide (message ≠ MSGB_FRAMECOUNT_TIME)
  then
    emit (EvCerr "Got wrong message after state loading");;
    mret (RetErr ENOLOAD)
  else
    n ← receiveData;
    w ← get;
    set_context (set_framecount n (context w));;
    n ← receiveData;
    w ← get;
    set_context (set_current_time_sec n (context w));;
    n ← receiveData;
    w ← get;
    set_context (set_current_time_nsec n (context w));;
    w ← get;
    when (bool_decide (recording (sc (config (context w))) = RECORDING_WRITE))
      (set_context (update_movie_time (context w)));;
    w ← get;
    when (didLoad && has_flag (osd (sc (config (context w)))) OSD_MESSAGES)
      (sendMessage MSGN_OSD_MSG;; sendString (loaded_msg this));;
    sendMessage MSGN_EXPOSE;;
    mret (if didLoad then RetMsg MSGB_LOADING_SUCCEEDED else RetZero).

End coordinator.

Arguments MovieFile : clear implicits.
Arguments File : clear implicits.
Arguments Machine : clear implicits.

(** ** Part II: the [dlopen] and [dlsym] hooks of the injected library *)

(** [std::string::find]: the position of the first occurrence of [pat] in
    [s], [None] for [npos] *)
Fixpoint find (s pat : string) : option nat :=
  if String.prefix pat s then Some 0%nat
  else match s with
       | EmptyString => None
       | String _ s' => S <$> find s' pat
       end.

(** [libpath.length() >= libtasstr.length() &&
     libpath.compare(libpath.length()-libtasstr.length(),
                     libtasstr.length(), libtasstr) == 0] *)
Definition ends_with (libpath libtasstr : string) : bool :=
  bool_decide (String.length libtasstr ≤ String.length libpath)%nat
  && bool_decide (String.substring (String.length libpath - String.length libtasstr)
                            (String.length libtasstr) libpath = libtasstr).

(** Pointers are addresses; the handles are those of glibc's [<dlfcn.h>]. *)
Definition nullptr : Z := 0.
Definition RTLD_DEFAULT : Z := 0.
Definition RTLD_NEXT : Z := -1.
Definition RTLD_LAZY : Z := 1.

(** The hook installers of [wine/*.h], called when a wine component
    loads; they are not among the sources, and a call of one is recorded
    as such. *)
Inductive WineHook : Set :=
| hook_wined3d
| hook_user32
| hook_kernel32
| hook_ntdll.

(** Every call that leaves the two hooks, in the order it is made.
    [EvBootstrap name] is the lookup [_dl_sym(RTLD_NEXT, name, ...)] that
    fills [orig::name] on first use; [EvDlSym] is [_dl_sym] used to answer
    a request. *)
Inductive DlEvent : Set :=
| EvBootstrap (name : string)
| EvDlSym (handle : Z) (name : string)
| EvOrigDlopen (file : option string) (mode : Z)
| EvOrigDlsym (handle : Z) (name : string)
| EvReenter (depth : Z) (handle : Z) (name : string)
| EvDlerror
| EvDladdr (addr : Z)
| EvGetenv (name : string)
| EvLog (warning : bool) (text : string)
| EvHook (h : WineHook)
| EvSetUnity.

(** The process-wide state the hooks share: the function-static library
    set, the [orig::] pointers (set or not), the two statics of [dlsym],
    the execution mode of [GlobalState], and the error [dlerror] would
    report. *)
Record Loader : Type := mkLoader {
  library_set : gset string;
  orig_dlopen : bool;
  orig_dlsym : bool;
  recurs_count : Z;
  safe : bool;
  native : bool;
  dl_error : bool;
  events : list DlEvent
}.

Definition set_library_set (s : gset string) (w : Loader) : Loader :=
  mkLoader s (orig_dlopen w) (orig_dlsym w) (recurs_count w) (safe w)
    (native w) (dl_error w) (events w).

Definition set_orig_dlopen (b : bool) (w : Loader) : Loader :=
  mkLoader (library_set w) b (orig_dlsym w) (recurs_count w) (safe w)
    (native w) (dl_error w) (events w).

Definition set_orig_dlsym (b : bool) (w : Loader) : Loader :=
  mkLoader (library_set w) (orig_dlopen w) b (recurs_count w) (safe w)
    (native w) (dl_error w) (events w).

Definition set_recurs_count (n : Z) (w : Loader) : Loader :=
  mkLoader (library_set w) (orig_dlopen w) (orig_dlsym w) n (safe w)
    (native w) (dl_error w) (events w).

Definition set_safe (b : bool) (w : Loader) : Loader :=
  mkLoader (library_set w) (orig_dlopen w) (orig_dlsym w) (recurs_count w) b
    (native w) (dl_error w) (events w).

Definition set_native (b : bool) (w : Loader) : Loader :=
  mkLoader (library_set w) (orig_dlopen w) (orig_dlsym w) (recurs_count w)
    (safe w) b (dl_error w) (events w).

Definition set_dl_error (b : bool) (w : Loader) : Loader :=
  mkLoader (library_set w) (orig_dlopen w) (orig_dlsym w) (recurs_count w)
    (safe w) (native w) b (events w).

Definition record (e : DlEvent) : M Loader unit :=
  modify (λ w, mkLoader (library_set w) (orig_dlopen w) (orig_dlsym w)
                 (recurs_count w) (safe w) (native w) (dl_error w)
                 (events w ++ [e])).

(** [debuglogstdio(flags, ...)] with the line it prints *)
Definition debuglogstdio (warning : bool) (text : string) : M Loader unit :=
  record (EvLog warning text).

(** Modelled from the spec: [GlobalState.h] is not among the sources.
    [GlobalNative gn;] and [NATIVECALL(...)] enter native mode for a scope
    and restore the prior mode when the scope is left. *)
Definition GlobalNative {A} (scope : M Loader A) : M Loader A :=
  w ← get;
  modify (set_native true);;
  a ← scope;
  modify (set_native (native w));;
  mret a.

(** [std::set<std::string>] is iterated in the order of [std::less]:
    strings compare byte by byte, bytes as unsigned, a proper prefix
    first.  This is the order [String.le]. *)
Definition in_order (s : gset string) : list string :=
  merge_sort String.le (elements s).

(** The loop of [find_lib] over the libraries left to visit; the empty
    string when it runs out *)
Fixpoint find_lib_from (library : string) (itrs : list string) : string :=
  match itrs with
  | [] => ""
  | itr :: itrs =>
      if bool_decide (is_Some (find itr library)) then itr
      else find_lib_from library itrs
  end.

(** [find_lib]; its argument is a C string, and not null *)
Definition find_lib (library : string) : M Loader string :=
  w ← get;
  mret (find_lib_from library (in_order (library_set w))).

(** [add_lib]: a null name is not recorded *)
Definition add_lib (library : option string) : M Loader unit :=
  match library with
  | Some l => modify (λ w, set_library_set ({[l]} ∪ library_set w) w)
  | None => mret tt
  end.

(** What a call into the real loader does before it returns: it is done,
    or a function it runs (an allocator, say) is hooked and asks [dlsym]
    for a symbol first, in native mode or not, and the call goes on with
    the address it got. *)
Inductive Real (A : Type) : Type :=
| Done (a : A)
| Reenter (native_call : bool) (handle : Z) (name : string) (k : Z → Real A).

Arguments Done {A} a.
Arguments Reenter {A} native_call handle name k.

Section interceptor.

(** The real loader and the environment, as the hooks reach them: glibc's
    [dlopen] and [dlsym] behind the [orig::] pointers, the internal
    [_dl_sym], [dladdr] (the [dli_fname] of the object an address belongs
    to, if any) and [getenv], for an environment in which the variable
    the hooks read, LIBTAS_LIBRARY_PATH, is set, as it is when the game
    is started with the library. *)
Variable real_dlopen : option string → Z → Z.
Variable real_dlsym : Z → string → Real (option Z).
Variable _dl_sym : Z → string → Z.
Variable dladdr : Z → option string.
Variable getenv : string → string.

(** The addresses of the two hooks themselves *)
Variables dlopen_addr dlsym_addr : Z.

(** The default value of the second parameter of [find_sym], declared in
    [dlhook.h], which is not among the sources *)
Variable original_default : bool.

(** [file != nullptr && std::string(file).find(pat) != std::string::npos] *)
Definition mentions (file : option string) (pat : string) : bool :=
  match file with
  | Some f => bool_decide (is_Some (find f pat))
  | None => false
  end.

(** A call through [orig::dlopen]; a failed load leaves an error for
    [dlerror] *)
Definition call_orig_dlopen (file : option string) (mode : Z) : M Loader Z :=
  record (EvOrigDlopen file mode);;
  let result := real_dlopen file mode in
  when (bool_decide (result = nullptr)) (modify (set_dl_error true));;
  mret result.

Definition dlopen (file : option string) (mode : Z) : M Loader Z :=
  w ← get;
  when (negb (orig_dlopen w))
    (record (EvBootstrap "dlopen");; modify (set_orig_dlopen true));;
  if native w then call_orig_dlopen file mode
  else if mentions file "libpulse"
  then
    debuglogstdio false ("dlopen blocked access to library " +:+ default "" file);;
    mret nullptr
  else if mentions file "ScreenSelector.so"
  then
    debuglogstdio false ("dlopen blocked access to library " +:+ default "" file);;
    mret nullptr
  else
    debuglogstdio false ("dlopen call with file " +:+ default "<NULL>" file);;
    result ← call_orig_dlopen file mode;
    when (bool_decide (result ≠ nullptr)) (add_lib file);;
    when (bool_decide (result ≠ nullptr) && mentions file "wined3d.dll.so")
      (record (EvHook hook_wined3d));;
    when (bool_decide (result ≠ nullptr) && mentions file "user32.dll.so")
      (record (EvHook hook_user32));;
    when (bool_decide (result ≠ nullptr) && mentions file "kernel32.dll.so")
      (record (EvHook hook_kernel32));;
    mret result.

(** [dlerror()]: reports whether an error is pending, and clears it *)
Definition dlerror : M Loader bool :=
  w ← get;
  record EvDlerror;;
  modify (set_dl_error false);;
  mret (dl_error w).

(** The part of the hooks that may be re-entered.  [call] is the hook
    [dlsym] as the functions running inside the real loader see it. *)
Section reentrant.

Variable call : Z → string → M Loader Z.

Fixpoint run_real {A} (r : Real A) : M Loader A :=
  match r with
  | Done a => mret a
  | Reenter native_call handle name k =>
      w ← get;
      record (EvReenter (recurs_count w) handle name);;
      addr ← (if native_call then GlobalNative (call handle name)
              else call handle name);
      run_real (k addr)
  end.

(** A call through [orig::dlsym]; a failed lookup returns null and leaves
    an error for [dlerror].  The pointer is filled by the hook [dlsym] on
    its first call; a call through it before that is a call through a
    null pointer, which ends the process: the call does not return. *)
Definition call_orig_dlsym (handle : Z) (name : string) : M Loader Z :=
  w ← get;
  if orig_dlsym w
  then
    record (EvOrigDlsym handle name);;
    found ← run_real (real_dlsym handle name);
    match found with
    | Some addr => mret addr
    | None => modify (set_dl_error true);; mret nullptr
    end
  else stuck.

Definition find_sym (name : string) (original : bool) : M Loader Z :=
  dlerror;;
  addr ← call_orig_dlsym RTLD_DEFAULT name;
  pending ← dlerror;
  if (pending : bool) then mret addr
  else
    record (EvDladdr addr);;
    match dladdr addr with
    | Some libpath =>
        libtasstr ← GlobalNative (record (EvGetenv "LIBTAS_LIBRARY_PATH");;
                                  mret (getenv "LIBTAS_LIBRARY_PATH"));
        let fromLibtas := ends_with libpath libtasstr in
        if bool_decide (original = fromLibtas) then mret nullptr else mret addr
    | None => mret addr
    end.

(** [recurs_count--] *)
Definition leave : M Loader unit :=
  modify (λ w, set_recurs_count (recurs_count w - 1) w).

Definition dlsym_body (handle : Z) (name : string) : M Loader Z :=
  w ← get;
  when (negb (orig_dlsym w))
    (record (EvBootstrap "dlsym");; modify (set_orig_dlsym true));;
  modify (λ w, set_safe (bool_decide (recurs_count w > 0)) w);;
  modify (λ w, set_recurs_count (recurs_count w + 1) w);;
  w ← get;
  if native w
  then
    ret ← (if safe w then record (EvDlSym handle name);; mret (_dl_sym handle name)
           else call_orig_dlsym handle name);
    leave;;
    mret ret
  else
    debuglogstdio false ("dlsym call with function " +:+ name +:+ " "
                           +:+ (if safe w then "(safe)" else ""));;
    if bool_decide (name = "dlopen") then leave;; mret dlopen_addr
    else if bool_decide (name = "dlsym") then leave;; mret dlsym_addr
    else
      early ←
        (if bool_decide (handle = RTLD_NEXT)
         then GlobalNative
                (if bool_decide (name = "localtime")
                    || bool_decide (name = "localtime64")
                    || bool_decide (name = "localtime_r")
                    || bool_decide (name = "localtime64_r")
                 then
                   libc_handle ← dlopen (Some "libc.so.6") RTLD_LAZY;
                   ret ← call_orig_dlsym libc_handle name;
                   leave;;
                   mret (Some ret)
                 else
                   debuglogstdio true
                     ("   dlsym called with RTLD_NEXT for symbol " +:+ name +:+ "!");;
                   mret None)
         else mret None);
      match early with
      | Some ret => mret ret
      | None =>
          when (bool_decide (name = "mono_unity_liveness_allocate_struct"))
            (record EvSetUnity);;
          addr ← find_sym name original_default;
          addr ← (if bool_decide (addr = nullptr)
                  then call_orig_dlsym handle name
                  else mret addr);
          when (bool_decide (name = "__wine_process_init"))
            (record (EvHook hook_ntdll));;
          leave;;
          mret addr
      end.

End reentrant.

(** The hook [dlsym], re-entered at most [depth] levels deep: one level
    more and the call does not return. *)
Fixpoint dlsym (depth : nat) (handle : Z) (name : string) : M Loader Z :=
  match depth with
  | O => stuck
  | S depth' => dlsym_body (dlsym depth') handle name
  end.

End interceptor.

Arguments buildPaths : simpl never.
Arguments buildMessages : simpl never.
Arguments has_flag : simpl never.
Arguments isPrefix : simpl never.
Arguments isPrefix_upto : simpl never.

(** ** Part III: what the specification says, as definitions *)

(** [buildPaths(context); buildMessages(context);], the first two lines of
    [save] and of [load] *)
Definition prepared (context : Context) (this : SaveState) : SaveState :=
  buildMessages (buildPaths context this).

Section coordinator_spec.

Context {AllInputs : Type} `{EqDecision AllInputs}.

(** The events a computation adds to the trace *)
Definition log (evs : list Effect) (w : Machine AllInputs) : Machine AllInputs :=
  mkMachine (context w) (movie w) (fs w) (inbox w) (trace w ++ evs) (writable w).

(** Both snapshot files of the prepared slot are on disk *)
Definition snapshot_present (this : SaveState) (w : Machine AllInputs) : bool :=
  bool_decide (is_Some (fs w !! pagemap_path this))
  && bool_decide (is_Some (fs w !! pages_path this)).

(** The fallback of the load contract: a recording mode is active, the
    companion movie of the slot exists and loads, and the current movie
    is a prefix of it at the current frame count. *)
Definition movie_prefix_fallback (this : SaveState) (w : Machine AllInputs) : bool :=
  bool_decide (recording (sc (config (context w))) ≠ NO_RECORDING)
  && match fs w !! movie_path this with
     | Some (MovieArchive _ inputs) =>
         isPrefix_upto (mkMovieFile inputs false) (movie w)
           (framecount (context w))
     | _ => false
     end.

(** The outcome of a playback load of a slot whose snapshot is present:
    a branch load goes through; otherwise the companion movie has to
    load, and to be a prefix of the current movie. *)
Definition playback_outcome (branch : bool) (this : SaveState)
    (w : Machine AllInputs) : Retval :=
  if branch then RetZero
  else match fs w !! movie_path this with
       | Some (MovieArchive _ inputs) =>
           if bool_decide (inputs `prefix_of` input_list (movie w))
           then RetZero
           else RetErr EINPUTMISMATCH
       | _ => RetErr ENOMOVIE
       end.

(** Modelled from the spec: the movie editor is not among the sources.
    An edit of the movie changes its inputs and raises the dirty flag. *)
Definition edit (inputs : list AllInputs) : M (Machine AllInputs) unit :=
  set_movie (mkMovieFile inputs true).

(** A session of the controller, as far as the rerecord count goes: the
    movie is edited, or a load has been requested and [postLoad] reads
    what the peer answers to it. *)
Inductive Op : Type :=
| OpEdit (inputs : list AllInputs)
| OpPostLoad (branch : bool) (this : SaveState) (answer : list Wire).

Variable OSD_MESSAGES : Z.

Definition step (op : Op) : M (Machine AllInputs) unit :=
  match op with
  | OpEdit inputs => edit inputs
  | OpPostLoad branch this answer =>
      set_inbox answer;; postLoad OSD_MESSAGES branch this;; mret tt
  end.

Fixpoint run (ops : list Op) : M (Machine AllInputs) unit :=
  match ops with
  | [] => mret tt
  | op :: ops => step op;; run ops
  end.

(** The peer reports that the state was loaded *)
Definition succeeded (answer : list Wire) : bool :=
  match answer with
  | WMsg m :: _ => bool_decide (m = MSGB_LOADING_SUCCEEDED)
  | _ => false
  end.

(** The rerecords a session is worth: one for each successful load that
    follows an edit made since the previous successful load. *)
Fixpoint rerecords (dirty : bool) (ops : list Op) : Z :=
  match ops with
  | [] => 0
  | OpEdit _ :: ops => rerecords true ops
  | OpPostLoad _ _ answer :: ops =>
      if succeeded answer
      then (if dirty then 1 else 0) + rerecords false ops
      else rerecords dirty ops
  end.

(** The dirty flag a session leaves *)
Fixpoint dirty_after (dirty : bool) (ops : list Op) : bool :=
  match ops with
  | [] => dirty
  | OpEdit _ :: ops => dirty_after true ops
  | OpPostLoad _ _ answer :: ops =>
      dirty_after (if succeeded answer then false else dirty) ops
  end.

End coordinator_spec.

(** *** The scenario of the specification: slot 2, frame 500 *)

Inductive Button : Set := U | D | L.

#[global] Instance Button_eq_dec : EqDecision Button.
Proof. solve_decision. Defined.

(** Playback, savestates on disk, no on-screen messages *)
Definition playback : SharedConfig :=
  mkSharedConfig RECORDING_READ 0 0 500 0 0.

Definition frame_500 : Context :=
  mkContext (mkConfig "/home/tas/states" playback) "game" 500 0 0 0 0 0.

Definition slot_2 : SaveState :=
  mkSaveState 2 false 0 "" "" "" "" "" "" "" "".

(** The game process writes the two snapshot files of a slot *)
Definition snapshot_written (this : SaveState) (w : Machine Button) : Machine Button :=
  mkMachine (context w) (movie w)
    (<[pages_path this := Plain "pages"]>
       (<[pagemap_path this := Plain "pagemap"]> (fs w)))
    (inbox w) (trace w) (writable w).

(** In the scenario every path can be opened for writing *)
Definition any_path (file : string) : bool := true.

(** Slot 2 is saved at frame 500 while the movie is [U,U,D,D], the game
    writes the snapshot and answers, and the movie goes on with [L]. *)
Definition before_save : Machine Button :=
  mkMachine frame_500 (mkMovieFile [U; U; D; D] false) ∅
    [WMsg MSGB_SAVING_SUCCEEDED] [] any_path.

Definition saved_slot_2 : SaveState :=
  match (save 2 4 slot_2 before_save).1 with
  | Some (_, this) => this
  | None => slot_2
  end.

Definition after_save : Machine Button :=
  snapshot_written saved_slot_2 (save 2 4 slot_2 before_save).2.

Definition live : Machine Button :=
  mkMachine (context after_save) (mkMovieFile [U; U; D; D; L] false)
    (fs after_save) [] [] any_path.

(** The live movie rewound to its first two frames *)
Definition rewound : Machine Button :=
  mkMachine (context live) (mkMovieFile [U; U] false) (fs live) [] [] any_path.

(** A peer that reports success and then anything but the frame count *)
Definition wrong_report : Machine Button :=
  mkMachine frame_500 (mkMovieFile [U; U; D; D] true) ∅
    [WMsg MSGB_LOADING_SUCCEEDED; WMsg MSGB_SAVING_SUCCEEDED] [] any_path.

(** A peer that reports a failure by a tag of its own *)
Definition failure_report : Machine Button :=
  mkMachine frame_500 (mkMovieFile [U; U; D; D] true) ∅
    [WMsg (MSGB_OTHER 0)] [] any_path.

(** The answers of a peer that loaded the state, and of one that did not *)
Definition loaded (frames sec nsec : Z) : list Wire :=
  [WMsg MSGB_LOADING_SUCCEEDED; WMsg MSGB_FRAMECOUNT_TIME;
   WData frames; WData sec; WData nsec].

Definition not_loaded (frames sec nsec : Z) : list Wire :=
  [WMsg MSGB_FRAMECOUNT_TIME; WData frames; WData sec; WData nsec].

(** A session: an edit, a load, a second load, a failed load after an
    edit, and a load. *)
Definition session : list (Op (AllInputs := Button)) :=
  [OpEdit [U; D]; OpPostLoad false saved_slot_2 (loaded 500 8 0);
   OpPostLoad false saved_slot_2 (loaded 500 8 0);
   OpEdit [U; L]; OpPostLoad false saved_slot_2 (not_loaded 510 8 5);
   OpPostLoad true saved_slot_2 (loaded 500 8 0)].

(** *** The interceptor *)

(** The deny list of [dlopen]: the path fragments it refuses to load *)
Definition deny_list : list string := ["libpulse"; "ScreenSelector.so"].

Definition denied (file : string) : bool :=
  existsb (λ pat, bool_decide (is_Some (find file pat))) deny_list.

(** [s] occurs in [t]: the meaning of [find] not returning [npos] *)
Definition occurs_in (s t : string) : Prop := ∃ a b, t = a +:+ s +:+ b.

(** A re-entry recorded at a counter value above [c] *)
Definition deeper_than (c : Z) (e : DlEvent) : Prop :=
  match e with
  | EvReenter depth _ _ => c < depth
  | _ => True
  end.

(** A call into the real resolver, whatever it is made for: the lookups
    through [_dl_sym], the one that fills an [orig::] pointer included,
    and the calls through the [orig::] pointers, with what they call
    back. *)
Definition is_resolution (e : DlEvent) : bool :=
  match e with
  | EvBootstrap _ | EvDlSym _ _ | EvOrigDlsym _ _ | EvOrigDlopen _ _
  | EvReenter _ _ _ => true
  | _ => false
  end.

(** All callbacks a call into the real loader makes are made in native
    mode, as those of the hooks of the library are. *)
Fixpoint native_callbacks {A} (r : Real A) : Prop :=
  match r with
  | Done _ => True
  | Reenter native_call _ _ k => native_call = true ∧ ∀ addr, native_callbacks (k addr)
  end.

(** Hoare triples for the computations of [M]: if [m] starts in a state
    of [P] and returns, it returns a value and a state of [Q]. *)
Definition triple {S A} (P : S → Prop) (m : M S A) (Q : A → S → Prop) : Prop :=
  ∀ w a w', P w → m w = (Some a, w') → Q a w'.

(** A computation that returns from every state of [P] *)
Definition returns {S A} (P : S → Prop) (m : M S A) : Prop :=
  ∀ w, P w → is_Some (m w).1.

(** Where a call of [dlsym] is, [d] levels above its entry: the counter is
    [d] above the value [c] it was entered with, the execution mode is the
    one it was entered in, and the calls made since [t] re-entered the
    hook at a counter above [c] only. *)
Definition during (d c : Z) (n : bool) (t : list DlEvent) (w : Loader) : Prop :=
  recurs_count w = c + d ∧ native w = n
  ∧ ∃ evs, events w = t ++ evs ∧ Forall (deeper_than c) evs.

(** [orig::dlsym] has been filled *)
Definition filled (w : Loader) : Prop := orig_dlsym w = true.

(** A computation that leaves [orig::dlsym] filled if it finds it so,
    whether it returns or not *)
Definition stays_filled {A} (m : M Loader A) : Prop :=
  ∀ w, filled w → filled (m w).2.

(** [during], with [orig::dlsym] filled *)
Definition ready (d c : Z) (n : bool) (t : list DlEvent) (w : Loader) : Prop :=
  during d c n t w ∧ filled w.

(** A hook that returns at the level it was entered *)
Definition balanced (call : Z → string → M Loader Z) : Prop :=
  ∀ handle name c n t,
    triple (during 0 c n t) (call handle name) (λ _, during 0 c n t).

(** *** A process for the examples *)

Definition fresh : Loader := mkLoader ∅ false false 0 false false false [].

(** A loader that finds every library but one, and every symbol *)
Definition libc_dlopen (file : option string) (mode : Z) : Z :=
  if bool_decide (file = Some "libmissing.so") then nullptr else 4096.

Definition libc_dlsym (handle : Z) (name : string) : Real (option Z) :=
  Done (Some 8192).

(** A loader whose [dlsym] allocates, the allocator being hooked: the
    hook asks for the real [calloc], in native mode *)
Definition allocating_dlsym (handle : Z) (name : string) : Real (option Z) :=
  Reenter true RTLD_NEXT "calloc" (λ _, Done (Some 8192)).

Definition libc_dl_sym (handle : Z) (name : string) : Z := 12288.

Definition libc_dladdr (addr : Z) : option string := Some "/usr/lib/libc.so.6".

Definition environ (name : string) : string := "/usr/lib/libtas.so".

(** The hook [dlsym] of the example process; the hooks are at 100 and 200 *)
Definition example_dlsym (real_dlsym : Z → string → Real (option Z)) :
    nat → Z → string → M Loader Z :=
  dlsym libc_dlopen real_dlsym libc_dl_sym libc_dladdr environ 100 200 false.

(** The example process inside a first call of [dlsym], in intercepted
    and in native mode *)
Definition reentered : Loader := mkLoader ∅ true true 1 false false false [].
Definition reentered_native : Loader := mkLoader ∅ true true 1 false true false [].

(** The lookup that fills an [orig::] pointer, if it is not set yet *)
Definition bootstrap (name : string) (set : bool) : list DlEvent :=
  if set then [] else [EvBootstrap name].

(** The line [dlsym] logs in intercepted mode *)
Definition dlsym_log (name : string) (safe : bool) : DlEvent :=
  EvLog false ("dlsym call with function " +:+ name +:+ " "
                 +:+ (if safe then "(safe)" else "")).

(** The process after [dlsym] was asked, in intercepted mode, for one of
    the two names of the hooks *)
Definition asked_own_name (name : string) (w : Loader) : Loader :=
  mkLoader (library_set w) (orig_dlopen w) true (recurs_count w)
    (bool_decide (recurs_count w > 0)) false (dl_error w)
    (events w ++ bootstrap "dlsym" (orig_dlsym w)
       ++ [dlsym_log name (bool_decide (recurs_count w > 0))]).

(** The process after a re-entrant call of [dlsym] in native mode *)
Definition asked_safely (handle : Z) (name : string) (w : Loader) : Loader :=
  mkLoader (library_set w) (orig_dlopen w) true (recurs_count w)
    true true (dl_error w)
    (events w ++ bootstrap "dlsym" (orig_dlsym w) ++ [EvDlSym handle name]).

(** A loader whose [dlsym] runs a hooked function that asks the hook for
    the same symbol again, not in native mode *)
Definition looping_dlsym (handle : Z) (name : string) : Real (option Z) :=
  Reenter false handle name (λ addr, Done (Some addr)).

(** The slot was saved, and one of its snapshot files is gone: the movie
    that was saved with it is offered. *)
Definition snapshot_lost : Machine Button :=
  mkMachine (context live) (mkMovieFile [U; U; D; D] false)
    (delete (pagemap_path saved_slot_2) (fs live)) [] [] any_path.

(** The peer did not load the state and says so by the frame-count report *)
Definition refused_load : Machine Button :=
  mkMachine frame_500 (mkMovieFile [U; U; D; D] true) ∅ (not_loaded 512 8 0) []
    any_path.

(** *** More of the coordinator *)

(** The files of a savestate slot *)
Definition slot_files (this : SaveState) : list string :=
  [path this; pagemap_path this; pages_path this; movie_path this].

(** A slot none of whose paths has been built or given yet *)
Definition unbuilt (this : SaveState) : Prop :=
  path this = "" ∧ pagemap_path this = "" ∧ pages_path this = ""
  ∧ movie_path this = "".

(** A slot whose paths and messages are all there *)
Definition built (this : SaveState) : Prop :=
  path this ≠ "" ∧ pagemap_path this ≠ "" ∧ pages_path this ≠ ""
  ∧ movie_path this ≠ "" ∧ saving_msg this ≠ "" ∧ no_state_msg this ≠ ""
  ∧ loading_msg this ≠ "" ∧ loaded_msg this ≠ "".

Section coordinator_requests.

Context {AllInputs : Type}.
Variables SS_RAM OSD_MESSAGES : Z.

(** What a save does before it waits for the answer of the peer *)
Definition save_request (this : SaveState) (w : Machine AllInputs) : list Effect :=
  let sc := sc (config (context w)) in
  (if bool_decide (recording sc ≠ NO_RECORDING)
   then [EvSaveMovie (movie_path this) (framecount (context w))] else [])
  ++ [EvSendMessage MSGN_SAVESTATE_INDEX; EvSendData (id this)]
  ++ (if has_flag (savestate_settings sc) SS_RAM
      then [EvOfstream (pagemap_path this); EvOfstream (pages_path this)]
      else [EvSendMessage MSGN_SAVESTATE_PATH; EvSendString (path this)])
  ++ (if has_flag (osd sc) OSD_MESSAGES
      then [EvSendMessage MSGN_OSD_MSG; EvSendString (saving_msg this)] else [])
  ++ [EvSendMessage MSGN_SAVESTATE].

End coordinator_requests.

Definition slot_3 : SaveState :=
  mkSaveState 3 false 0 "" "" "" "" "" "" "" "".

(** The movie was edited after slot 2 was saved, and the peer reports
    that it loaded the slot *)
Definition edited_and_loaded : Machine Button :=
  mkMachine (context live) (mkMovieFile [U; L] true) (fs live)
    (loaded 500 8 0) [] any_path.

(** Nobody answers *)
Definition silent : Machine Button :=
  mkMachine frame_500 (mkMovieFile [U; U; D; D] false) ∅ [] [] any_path.

(** A recording that started at 3 s and 7 ns, now at 10 s and 5 ns *)
Definition clock : Context :=
  mkContext (mkConfig "/home/tas/states"
               (mkSharedConfig RECORDING_WRITE 0 0 0 3 7))
    "game" 600 0 10 5 0 0.

(** *** More of the interceptor *)

(** The wine component a hook installer of [dlopen] belongs to *)
Definition wine_component (h : WineHook) : option string :=
  match h with
  | hook_wined3d => Some "wined3d.dll.so"
  | hook_user32 => Some "user32.dll.so"
  | hook_kernel32 => Some "kernel32.dll.so"
  | hook_ntdll => None
  end.

(** The names [dlsym] takes from libc when asked with [RTLD_NEXT] *)
Definition localtime_family : list string :=
  ["localtime"; "localtime64"; "localtime_r"; "localtime64_r"].

(** What [find_sym] makes of what the real [dlsym] finds for the default
    handle: the address, unless the object it belongs to is the library
    itself when the original is wanted, or another object when the hook
    is; null when nothing is found *)
Definition arbitrate (dladdr : Z → option string) (getenv : string → string)
    (original : bool) (found : option Z) : Z :=
  match found with
  | Some addr =>
      match dladdr addr with
      | Some libpath =>
          if bool_decide (original
                          = ends_with libpath (getenv "LIBTAS_LIBRARY_PATH"))
          then nullptr else addr
      | None => addr
      end
  | None => nullptr
  end.

(** A computation that leaves the library set as it is, whether it
    returns or not *)
Definition keeps_libraries {A} (m : M Loader A) : Prop :=
  ∀ w, library_set (m w).2 = library_set w.

(** A real [dlsym] that, before it answers, has the hook asked for the
    symbol it is resolving, without entering native mode *)
Definition asks_back (real_dlsym : Z → string → Real (option Z)) : Prop :=
  ∀ handle name, ∃ k, real_dlsym handle name = Reenter false handle name k.

(** The example process in native mode, outside any call of [dlsym] *)
Definition fresh_native : Loader := mkLoader ∅ false false 0 false true false [].


(** ** Part IV: properties of the savestate coordinator *)

(** Unfolding the operations of the coordinator down to the monad *)
Ltac run_M :=
  unfold save, load, load_no_state, load_offer, load_check, postLoad,
    saveMovie, loadInputs, access, ofstream, receiveMessage, receiveData,
    sendMessage, sendData, sendString, sendConfig, when, emit,
    set_fs, set_inbox, set_context, set_movie, modify, get, stuck,
    mbind, M_bind, mret, M_ret in *;
  cbn in *.

(** Case analysis on the tests a computation makes, in program order *)
Ltac split_run :=
  repeat (match goal with
          | |- context [match ?x with _ => _ end] =>
              lazymatch x with
              | context [match _ with _ => _ end] => fail
              | _ => destruct x eqn:?
              end
          end; cbn in *; simplify_eq/=);
  repeat match goal with
         | H : negb _ = true |- _ => apply negb_true_iff in H
         | H : negb _ = false |- _ => apply negb_false_iff in H
         end.

Ltac assoc_trace := rewrite <- ?(assoc_L (++)); cbn.

Ltac absurd_in Hin :=
  repeat (apply elem_of_cons in Hin as [Hin | Hin]; [discriminate Hin |]);
  by apply elem_of_nil in Hin.

Ltac not_in_list := let Hin := fresh in intros Hin; absurd_in Hin.

Ltac in_list :=
  repeat first [apply list_elem_of_here | apply list_elem_of_further].

Section coordinator_properties.

Context {AllInputs : Type} `{EqDecision AllInputs}.
Variables SS_RAM OSD_MESSAGES : Z.

(** C10.  Every load first sends the savestate-index message and the slot
    id, and only then looks for the snapshot files: whatever the outcome,
    no-state outcomes included, the trace of the load starts with the
    index message, the id and the first [access]. *)
Theorem load_sends_index_before_access (branch : bool) (this : SaveState)
    (w : Machine AllInputs) :
  ∃ r rest,
    load SS_RAM OSD_MESSAGES branch this w
    = (Some (r, prepared (context w) this),
       log (EvSendMessage MSGN_SAVESTATE_INDEX :: EvSendData (id this)
            :: EvAccess (pagemap_path (prepared (context w) this)) :: rest) w).
Proof.
  unfold prepared, log. run_M.
  set (this' := buildMessages _) in *.
  replace (id this) with (id this') by reflexivity.
  clearbody this'. destruct w as [c m f i t wr]; cbn.
  split_run; rewrite <- ?(assoc_L (++)); cbn; eauto.
Qed.

(** C3.  When the page-map or the page-data file of the slot is missing,
    the load returns the no-state outcome, unless a recording mode is
    active, the companion movie exists and loads, and the current movie is
    a prefix of it at the current frame count: then it returns the
    no-state-but-movie-prefix outcome, and not plain no-state. *)
Theorem load_without_snapshot (branch : bool) (this : SaveState)
    (w : Machine AllInputs) :
  let this' := prepared (context w) this in
  fs w !! pagemap_path this' = None ∨ fs w !! pages_path this' = None →
  (load SS_RAM OSD_MESSAGES branch this w).1
  = Some (RetErr (if movie_prefix_fallback this' w
                  then ENOSTATEMOVIEPREFIX else ENOSTATE), this').
Proof.
  unfold prepared, movie_prefix_fallback. run_M.
  set (this' := buildMessages _) in *. clearbody this'.
  destruct w as [c m f i t wr]; cbn. intros Hmissing.
  assert (bool_decide (is_Some (f !! pagemap_path this'))
          && bool_decide (is_Some (f !! pages_path this')) = false) as Hsnap.
  { destruct Hmissing as [-> | ->]; [done|]. by rewrite andb_false_r. }
  split_run; congruence.
Qed.

(** C1, as amended.  In playback mode, with both snapshot files present,
    a non-branch load requires the recorded movie of the slot to be a
    prefix of the current movie: it returns the no-movie outcome when the
    companion movie does not load, the input-mismatch outcome when the
    check fails, and sends the load-state message exactly when it returns
    0; a branch load makes no check and does not load the movie. *)
Theorem load_in_playback (branch : bool) (this : SaveState)
    (w : Machine AllInputs) :
  let this' := prepared (context w) this in
  snapshot_present this' w = true →
  recording (sc (config (context w))) = RECORDING_READ →
  ∃ evs,
    load SS_RAM OSD_MESSAGES branch this w
    = (Some (playback_outcome branch this' w, this'), log evs w)
    ∧ (EvSendMessage MSGN_LOADSTATE ∈ evs
       ↔ playback_outcome branch this' w = RetZero)
    ∧ (branch = true → EvLoadInputs (movie_path this') ∉ evs).
Proof.
  unfold prepared, snapshot_present, playback_outcome, log. run_M.
  set (this' := buildMessages _) in *. clearbody this'.
  destruct w as [c m f i t wr]; unfold isPrefix; cbn. intros Hsnap Hread.
  apply andb_true_iff in Hsnap as [Hpm Hp].
  destruct c as [[dir [rec ? ? ? ? ?]] ? ? ? ? ? ? ?]; cbn in *; subst rec.
  split_run; try congruence; eexists; (split; [assoc_trace; reflexivity |]);
    (split;
     [split; [intros Hin; first [reflexivity | absurd_in Hin]
             | intros Heq; first [discriminate Heq | in_list]]
     | intros Hb; first [discriminate Hb | not_in_list]]).
Qed.

(** C5.  If the recording mode is not no-recording, the first thing a save
    does is to persist the current movie to the movie file of the slot,
    stamped with the current frame count; the index message and all other
    messages follow.  If the mode is no-recording, the save writes no
    movie file.  The file system after the save is the one before with
    the movie file, if it was written, and, for savestates kept in RAM,
    with an empty file at each of the two snapshot paths that could be
    opened for writing; the save does not test whether they could. *)
Theorem save_persists_movie_first (this : SaveState) (w : Machine AllInputs) :
  let this' := prepared (context w) this in
  let recording_on :=
    bool_decide (recording (sc (config (context w))) ≠ NO_RECORDING) in
  let in_ram := has_flag (savestate_settings (sc (config (context w)))) SS_RAM in
  let w' := (save SS_RAM OSD_MESSAGES this w).2 in
  ∃ rest,
    trace w'
    = trace w
      ++ (if recording_on
          then [EvSaveMovie (movie_path this') (framecount (context w))]
          else [])
      ++ EvSendMessage MSGN_SAVESTATE_INDEX :: rest
    ∧ (∀ file frames, EvSaveMovie file frames ∉ rest)
    ∧ fs w'
      = let with_movie :=
          if recording_on
          then <[movie_path this' :=
                   MovieArchive (framecount (context w)) (input_list (movie w))]>
                 (fs w)
          else fs w in
        let with_pagemap :=
          if writable w (pagemap_path this')
          then <[pagemap_path this' := Plain ""]> with_movie
          else with_movie in
        if in_ram
        then (if writable w (pages_path this')
              then <[pages_path this' := Plain ""]> with_pagemap
              else with_pagemap)
        else with_movie.
Proof.
  unfold prepared. run_M.
  set (this' := buildMessages _) in *. clearbody this'.
  destruct w as [c m f i t wr]; cbn.
  split_run; eexists; (split; [assoc_trace; reflexivity |]);
    (split; [intros ??; not_in_list | done]).
Qed.


(** C6, as amended.  A post-load that returns does so with the peer's
    success tag, 0, or the protocol error.  Unless it is the protocol
    error (the frame-count report did not come), an expose message is the
    last thing it sends, whether the peer loaded the state or not; a
    post-load that returns the protocol error sends no expose message. *)
Theorem postLoad_expose (branch : bool) (this : SaveState)
    (w : Machine AllInputs) (r : Retval) :
  (postLoad OSD_MESSAGES branch this w).1 = Some r →
  ∃ evs,
    trace (postLoad OSD_MESSAGES branch this w).2 = trace w ++ evs
    ∧ (r = RetMsg MSGB_LOADING_SUCCEEDED ∨ r = RetZero ∨ r = RetErr ENOLOAD)
    ∧ (r ≠ RetErr ENOLOAD → last evs = Some (EvSendMessage MSGN_EXPOSE))
    ∧ (r = RetErr ENOLOAD → EvSendMessage MSGN_EXPOSE ∉ evs).
Proof.
  run_M. destruct w as [c m f i t wr]; cbn.
  split_run; intros Hr; simplify_eq/=; eexists;
    (split; [assoc_trace; reflexivity |]);
    (split; [naive_solver |]);
    (split; [intros Hne; first [reflexivity | by destruct Hne]
            | intros Heq; first [discriminate Heq | not_in_list]]).
Qed.

(** The block that updates the movie time leaves the rerecord count *)
Lemma update_movie_time_rerecord_count (c : Context) :
  rerecord_count (update_movie_time c) = rerecord_count c.
Proof. unfold update_movie_time. by case_bool_decide. Qed.

(** One post-load, whether it returns or blocks: the rerecord count goes
    up by one if the peer reports success and the movie is dirty, and the
    dirty flag is cleared if the peer reports success. *)
Lemma postLoad_rerecord (branch : bool) (this : SaveState)
    (w : Machine AllInputs) :
  let w' := (postLoad OSD_MESSAGES branch this w).2 in
  rerecord_count (context w')
  = rerecord_count (context w)
    + (if succeeded (inbox w) && modifiedSinceLastStateLoad (movie w)
       then 1 else 0)
  ∧ modifiedSinceLastStateLoad (movie w')
    = (if succeeded (inbox w) then false
       else modifiedSinceLastStateLoad (movie w)).
Proof.
  run_M. destruct w as [c m f i t wr]; cbn. unfold succeeded.
  destruct m as [inputs dirty]; cbn.
  split_run; rewrite ?update_movie_time_rerecord_count; cbn; split;
    first [lia | done | congruence].
Qed.

(** C4.  Over any session of edits and loads that runs to its end, the
    rerecord count increases by exactly one at each post-load whose load
    succeeded with the movie modified since the last successful load
    (which clears the flag), and by nothing at any other post-load:
    neither when nothing was modified, nor when the load did not
    succeed. *)
Theorem rerecord_count_session (ops : list Op) (w : Machine AllInputs) :
  (run OSD_MESSAGES ops w).1 = Some () →
  rerecord_count (context (run OSD_MESSAGES ops w).2)
  = rerecord_count (context w)
    + rerecords (modifiedSinceLastStateLoad (movie w)) ops
  ∧ modifiedSinceLastStateLoad (movie (run OSD_MESSAGES ops w).2)
    = dirty_after (modifiedSinceLastStateLoad (movie w)) ops.
Proof.
  revert w. induction ops as [|op ops IH]; intros w; cbn.
  - split; [lia | done].
  - unfold mbind, M_bind.
    destruct (step OSD_MESSAGES op w) as [[[]|] w1] eqn:Hstep; [|done].
    intros Hrun. destruct (IH w1 Hrun) as [IHcount IHdirty].
    rewrite IHcount, IHdirty. clear IH IHcount IHdirty Hrun.
    destruct op as [inputs | branch this answer]; cbn in Hstep.
    + unfold edit, set_movie, modify in Hstep. simplify_eq/=. split; [lia | done].
    + unfold mbind, M_bind, set_inbox, modify, mret, M_ret in Hstep.
      set (w0 := mkMachine (context w) (movie w) (fs w) answer (trace w)
                   (writable w)) in *.
      destruct (postLoad_rerecord branch this w0) as [Hcount Hdirty].
      destruct (postLoad OSD_MESSAGES branch this w0) as [[r|] w1'];
        simplify_eq/=.
      rewrite Hcount, Hdirty.
      destruct (succeeded answer), (modifiedSinceLastStateLoad (movie w));
        cbn; split; first [lia | done].
Qed.


End coordinator_properties.

(** *** The scenario, and the theorems at work *)

(** C2.  Slot 2 was saved at frame 500 with the movie [U,U,D,D]; the live
    movie at frame 500 is [U,U,D,D,L].  The movie of the slot is a prefix
    of the live movie, and the non-branch playback load of slot 2 passes
    the check: it returns 0 and ends by sending the load-state message.
    (The two flag constants are given the values 2 and 4; the
    configuration of the scenario sets no flag.) *)
Theorem load_slot_2_scenario :
  (save 2 4 slot_2 before_save).1
  = Some (RetMsg MSGB_SAVING_SUCCEEDED, saved_slot_2)
  ∧ state_framecount saved_slot_2 = 500
  ∧ fs live !! movie_path saved_slot_2 = Some (MovieArchive 500 [U; U; D; D])
  ∧ framecount (context live) = 500
  ∧ recording (sc (config (context live))) = RECORDING_READ
  ∧ input_list (movie live) = [U; U; D; D; L]
  ∧ isPrefix (movie live) (mkMovieFile [U; U; D; D] false) = true
  ∧ load 2 4 false saved_slot_2 live
    = (Some (RetZero, saved_slot_2),
       log [EvSendMessage MSGN_SAVESTATE_INDEX; EvSendData 2;
            EvAccess "/home/tas/states/game.state2.pm";
            EvAccess "/home/tas/states/game.state2.p";
            EvSendMessage MSGN_SAVESTATE_PATH;
            EvSendString "/home/tas/states/game.state2";
            EvLoadInputs "/home/tas/states/game.movie2.ltm";
            EvSendMessage MSGN_LOADSTATE] live).
Proof. repeat split; vm_compute; reflexivity. Qed.

(** C1, as stated, fails.  In the scenario the current movie [U,U,D,D,L]
    is not a prefix of the movie [U,U,D,D] of the slot, and the non-branch
    playback load goes through all the same; rewound to [U,U], the current
    movie is a prefix of the movie of the slot, and the load is refused
    with the input-mismatch outcome. *)
Lemma load_in_playback_not_current_prefix :
  recording (sc (config (context live))) = RECORDING_READ
  ∧ snapshot_present saved_slot_2 live = true
  ∧ fs live !! movie_path saved_slot_2 = Some (MovieArchive 500 [U; U; D; D])
  ∧ ¬ input_list (movie live) `prefix_of` [U; U; D; D]
  ∧ (load 2 4 false saved_slot_2 live).1 = Some (RetZero, saved_slot_2)
  ∧ last (trace (load 2 4 false saved_slot_2 live).2)
    = Some (EvSendMessage MSGN_LOADSTATE)
  ∧ input_list (movie rewound) `prefix_of` [U; U; D; D]
  ∧ (load 2 4 false saved_slot_2 rewound).1
    = Some (RetErr EINPUTMISMATCH, saved_slot_2).
Proof.
  split_and!; try (vm_compute; reflexivity).
  - intros [k Hk]. discriminate Hk.
  - by exists [D; D].
Qed.

Lemma load_in_playback_witness :
  snapshot_present (prepared (context live) saved_slot_2) live = true
  ∧ recording (sc (config (context live))) = RECORDING_READ
  ∧ ∃ evs,
      load 2 4 false saved_slot_2 live
      = (Some (playback_outcome false (prepared (context live) saved_slot_2) live,
               prepared (context live) saved_slot_2), log evs live)
      ∧ (EvSendMessage MSGN_LOADSTATE ∈ evs
         ↔ playback_outcome false (prepared (context live) saved_slot_2) live
           = RetZero)
      ∧ (false = true
         → EvLoadInputs (movie_path (prepared (context live) saved_slot_2)) ∉ evs).
Proof.
  split; [vm_compute; reflexivity |]. split; [reflexivity |].
  apply (load_in_playback 2 4 false saved_slot_2 live);
    vm_compute; reflexivity.
Defined.

Lemma load_without_snapshot_witness :
  (fs snapshot_lost !! pagemap_path (prepared (context snapshot_lost) saved_slot_2)
   = None
   ∨ fs snapshot_lost !! pages_path (prepared (context snapshot_lost) saved_slot_2)
     = None)
  ∧ (load 2 4 false saved_slot_2 snapshot_lost).1
    = Some (RetErr (if movie_prefix_fallback
                         (prepared (context snapshot_lost) saved_slot_2)
                         snapshot_lost
                    then ENOSTATEMOVIEPREFIX else ENOSTATE),
            prepared (context snapshot_lost) saved_slot_2)
  ∧ movie_prefix_fallback (prepared (context snapshot_lost) saved_slot_2)
      snapshot_lost = true.
Proof.
  split; [left; vm_compute; reflexivity |].
  split; [| vm_compute; reflexivity].
  apply (load_without_snapshot 2 4 false saved_slot_2 snapshot_lost).
  left; vm_compute; reflexivity.
Defined.

(** C6, as stated, fails.  The peer reports success and then sends a tag
    that is not the frame-count report, or reports a failure by a tag of
    its own: the post-load returns the protocol error and has not sent an
    expose message. *)
Lemma postLoad_without_expose :
  (postLoad 4 false saved_slot_2 wrong_report).1 = Some (RetErr ENOLOAD)
  ∧ (EvSendMessage MSGN_EXPOSE
     ∉ trace (postLoad 4 false saved_slot_2 wrong_report).2)
  ∧ (postLoad 4 false saved_slot_2 failure_report).1 = Some (RetErr ENOLOAD)
  ∧ (EvSendMessage MSGN_EXPOSE
     ∉ trace (postLoad 4 false saved_slot_2 failure_report).2).
Proof.
  split_and!; try (vm_compute; reflexivity).
  - vm_compute. not_in_list.
  - vm_compute. not_in_list.
Qed.

Lemma postLoad_expose_witness :
  (postLoad 4 false saved_slot_2 refused_load).1 = Some RetZero
  ∧ ∃ evs,
      trace (postLoad 4 false saved_slot_2 refused_load).2
      = trace refused_load ++ evs
      ∧ (RetZero = RetMsg MSGB_LOADING_SUCCEEDED ∨ RetZero = RetZero
         ∨ RetZero = RetErr ENOLOAD)
      ∧ (RetZero ≠ RetErr ENOLOAD → last evs = Some (EvSendMessage MSGN_EXPOSE))
      ∧ (RetZero = RetErr ENOLOAD → EvSendMessage MSGN_EXPOSE ∉ evs).
Proof.
  split; [vm_compute; reflexivity |].
  apply (postLoad_expose 4 false saved_slot_2 refused_load RetZero).
  vm_compute; reflexivity.
Defined.

Lemma rerecord_count_session_witness :
  (run 4 session live).1 = Some ()
  ∧ rerecord_count (context (run 4 session live).2)
    = rerecord_count (context live)
      + rerecords (modifiedSinceLastStateLoad (movie live)) session
  ∧ modifiedSinceLastStateLoad (movie (run 4 session live).2)
    = dirty_after (modifiedSinceLastStateLoad (movie live)) session.
Proof.
  split; [vm_compute; reflexivity |].
  apply (rerecord_count_session 4 session live).
  vm_compute; reflexivity.
Defined.

(** ** Part V: properties of the [dlopen] and [dlsym] hooks *)

(** Unfolding the helpers of the hooks down to the monad *)
Ltac run_dl :=
  unfold dlopen, call_orig_dlopen, add_lib, dlerror, debuglogstdio, record,
    GlobalNative, leave, when, modify, get, stuck,
    mbind, M_bind, mret, M_ret in *;
  cbn in *.

(** [String.prefix] is the prefix test it is named after *)
Lemma prefix_occurs (pat s : string) :
  String.prefix pat s = true ↔ ∃ b, s = pat +:+ b.
Proof.
  revert pat. induction s as [|c s IH]; intros [|c' pat]; cbn.
  - split; [by exists "" | done].
  - split; [done | by intros [b ?]].
  - split; [by eexists | done].
  - destruct (Ascii.ascii_dec c' c) as [->|Hne].
    + rewrite IH. split; intros [b Hb]; exists b; [by rewrite Hb | by injection Hb].
    + split; [done | intros [b Hb]; injection Hb as Hc _; by destruct Hne].
Qed.

(** [find] finds a fragment exactly when the fragment occurs *)
Lemma find_occurs (s pat : string) : is_Some (find s pat) ↔ occurs_in pat s.
Proof.
  unfold occurs_in. induction s as [|c s IH]; cbn [find].
  - destruct (String.prefix pat "") eqn:Hp.
    + split; [intros _ | by eauto].
      apply prefix_occurs in Hp as [b Hb]. by exists "", b.
    + split; [by intros [? ?] |]. intros ([|? a] & b & Hab); [|done].
      assert (String.prefix pat "" = true) by (apply prefix_occurs; eauto).
      congruence.
  - destruct (String.prefix pat (String c s)) eqn:Hp.
    + split; [intros _ | by eauto].
      apply prefix_occurs in Hp as [b Hb]. by exists "", b.
    + rewrite fmap_is_Some, IH. split.
      * intros (a & b & ->). by exists (String c a), b.
      * intros ([|c' a] & b & Hab).
        -- assert (String.prefix pat (String c s) = true)
             by (apply prefix_occurs; eauto).
           congruence.
        -- exists a, b. by injection Hab.
Qed.

(** Rules of the triples *)

(** The deny list of [dlopen], in words *)
Lemma denied_occurs (file : string) :
  denied file = true
  ↔ occurs_in "libpulse" file ∨ occurs_in "ScreenSelector.so" file.
Proof.
  unfold denied, deny_list. cbn [existsb].
  rewrite orb_false_r, orb_true_iff, !bool_decide_eq_true.
  by rewrite !find_occurs.
Qed.

Section triples.

Context {S : Type}.

Lemma triple_ret {A} (P : S → Prop) (a : A) (Q : A → S → Prop) :
  (∀ w, P w → Q a w) → triple P (mret a) Q.
Proof. intros HQ w a' w' HP [= <- <-]. by apply HQ. Qed.

Lemma triple_bind {A B} (P : S → Prop) (m : M S A) (k : A → M S B)
    (Q : A → S → Prop) (R : B → S → Prop) :
  triple P m Q → (∀ a, triple (Q a) (k a) R) → triple P (m ≫= k) R.
Proof.
  intros Hm Hk w b w' HP. unfold mbind, M_bind.
  destruct (m w) as [[a|] w1] eqn:Hrun; [| done].
  intros Hrest. eapply Hk; [| done]. by eapply Hm.
Qed.

Lemma triple_assoc {A B C} (P : S → Prop) (m : M S A) (k1 : A → M S B)
    (k2 : B → M S C) (R : C → S → Prop) :
  triple P (m ≫= λ a, k1 a ≫= k2) R → triple P ((m ≫= k1) ≫= k2) R.
Proof.
  intros Hm w c w' HP Hrun. eapply Hm; [done |]. revert Hrun.
  unfold mbind, M_bind. by destruct (m w) as [[a|] w1].
Qed.

Lemma triple_ret_bind {A B} (P : S → Prop) (a : A) (k : A → M S B)
    (R : B → S → Prop) :
  triple P (k a) R → triple P (mret a ≫= k) R.
Proof. done. Qed.

Lemma triple_get_bind {B} (P : S → Prop) (k : S → M S B) (R : B → S → Prop) :
  (∀ w0, P w0 → triple P (k w0) R) → triple P (get ≫= k) R.
Proof. intros Hk w b w' HP Hrun. by eapply (Hk w). Qed.

Lemma triple_modify (P : S → Prop) (f : S → S) (Q : unit → S → Prop) :
  (∀ w, P w → Q () (f w)) → triple P (modify f) Q.
Proof. intros HQ w [] w' HP [= <-]. by apply HQ. Qed.

Lemma triple_stuck {A} (P : S → Prop) (Q : A → S → Prop) : triple P stuck Q.
Proof. by intros w a w' _. Qed.

Lemma triple_when (P : S → Prop) (b : bool) (m : M S unit) :
  triple P m (λ _, P) → triple P (when b m) (λ _, P).
Proof. destruct b; [done |]. intros _. by apply triple_ret. Qed.

Lemma triple_post {A} (P : S → Prop) (m : M S A) (Q Q' : A → S → Prop) :
  triple P m Q' → (∀ a w, Q' a w → Q a w) → triple P m Q.
Proof. intros Hm HQ w a w' HP Hrun. eapply HQ, Hm; done. Qed.

Lemma triple_pre {A} (P P' : S → Prop) (m : M S A) (Q : A → S → Prop) :
  triple P' m Q → (∀ w, P w → P' w) → triple P m Q.
Proof. intros Hm HP w a w' Hw Hrun. eapply Hm; [by apply HP | done]. Qed.

End triples.

(** The counter invariant is kept by everything but the increment and
    the decrement *)

Create HintDb triples.

Section counter_invariant.

Variables (d c : Z) (n : bool) (t : list DlEvent).

Lemma during_modify (f : Loader → Loader) :
  (∀ w, recurs_count (f w) = recurs_count w ∧ native (f w) = native w
        ∧ events (f w) = events w) →
  triple (during d c n t) (modify f) (λ _, during d c n t).
Proof.
  intros Hf. apply triple_modify. intros w (Hc & Hn & Hev).
  destruct (Hf w) as (Hc' & Hn' & Hev'). unfold during. by rewrite Hc', Hn', Hev'.
Qed.

Lemma during_record (e : DlEvent) :
  deeper_than c e → triple (during d c n t) (record e) (λ _, during d c n t).
Proof.
  intros He. apply triple_modify. intros w (Hc & Hn & evs & Hev & Hevs).
  repeat split; [done.. |]. exists (evs ++ [e]); cbn. split.
  - by rewrite Hev, (assoc_L (++)).
  - apply Forall_app. split; [done |]. by apply Forall_singleton.
Qed.

Lemma during_seq {A} (m1 : M Loader A) (m2 : M Loader unit) :
  triple (during d c n t) m1 (λ _, during d c n t) →
  triple (during d c n t) m2 (λ _, during d c n t) →
  triple (during d c n t) (m1 ;; m2) (λ _, during d c n t).
Proof. intros H1 H2. by eapply triple_bind. Qed.

Lemma during_set_native (n' : bool) (w : Loader) :
  during d c n t w → during d c n' t (set_native n' w).
Proof. by intros (Hc & Hn & Hev). Qed.

Lemma during_step (d' : Z) (w : Loader) :
  during d c n t w → during d' c n t (set_recurs_count (c + d') w).
Proof. by intros (Hc & Hn & Hev). Qed.

End counter_invariant.

#[local] Hint Resolve during_record during_seq triple_when : triples.
#[local] Hint Extern 1 (triple (during _ _ _ _) (modify _) _) =>
  apply during_modify; intros []; done : triples.
#[local] Hint Extern 1 (deeper_than _ _) => exact I : triples.

Ltac triple_step :=
  lazymatch goal with
  | |- triple _ (mret _) _ => apply triple_ret; intros ? ?
  | |- triple _ (get ≫= _) _ => apply triple_get_bind; intros ? ?
  | |- triple _ ((if ?b then _ else _) ≫= _) _ => destruct b eqn:?
  | |- triple _ ((_ ≫= _) ≫= _) _ => apply triple_assoc
  | |- triple _ (mret _ ≫= _) _ => apply triple_ret_bind
  | |- triple _ (_ ≫= _) _ =>
      eapply triple_bind; [solve [eauto with triples] | intros ?]
  | |- triple _ (if ?b then _ else _) _ => destruct b eqn:?
  | |- triple _ (match ?x with _ => _ end) _ => destruct x eqn:?
  | |- triple _ _ _ => solve [eauto with triples]
  end.

(** Entering native mode for a scope: what the scope establishes in
    native mode holds in the prior mode once the scope is left. *)
Lemma during_GlobalNative {A} (d c : Z) (n : bool) (t : list DlEvent)
    (scope : M Loader A) (Q : bool → A → Loader → Prop) :
  triple (during d c true t) scope (Q true) →
  (∀ a w, Q true a w → Q n a (set_native n w)) →
  triple (during d c n t) (GlobalNative scope) (Q n).
Proof.
  intros Hscope HQ. unfold GlobalNative.
  apply triple_get_bind. intros w0 (_ & Hn & _).
  apply (triple_bind _ _ _ (λ _, during d c true t)).
  { apply triple_modify. intros w. apply during_set_native. }
  intros _. apply (triple_bind _ _ _ (Q true)); [exact Hscope |]. intros a.
  apply (triple_bind _ _ _ (λ _, Q n a)).
  { apply triple_modify. intros w Hw. rewrite Hn. by apply HQ. }
  intros _. by apply triple_ret.
Qed.

Lemma during_GlobalNative_keeps {A} (d c : Z) (n : bool) (t : list DlEvent)
    (scope : M Loader A) :
  triple (during d c true t) scope (λ _, during d c true t) →
  triple (during d c n t) (GlobalNative scope) (λ _, during d c n t).
Proof.
  intros Hscope.
  apply (during_GlobalNative d c n t scope (λ n' _, during d c n' t)); [done |].
  intros _ w. apply during_set_native.
Qed.

(** A balanced hook, called from inside a call, keeps the invariant *)
Lemma during_call (call : Z → string → M Loader Z) (d c : Z) (n : bool)
    (t : list DlEvent) (handle : Z) (name : string) :
  balanced call → 0 ≤ d →
  triple (during d c n t) (call handle name) (λ _, during d c n t).
Proof.
  intros Hcall Hd w a w' (Hc & Hn & evs & Hev & Hevs) Hrun.
  destruct (Hcall handle name (c + d) n (events w) w a w') as
    (Hc' & Hn' & evs' & Hev' & Hevs'); [| done |].
  { repeat split; [lia | done |]. exists []. by rewrite (right_id_L [] (++)). }
  repeat split; [lia | done |]. exists (evs ++ evs'). split.
  - by rewrite Hev', Hev, (assoc_L (++)).
  - apply Forall_app. split; [done |].
    eapply Forall_impl; [exact Hevs' |]. intros [] He; cbn in *; try done. lia.
Qed.

Ltac finish_state :=
  unfold set_recurs_count; cbn; rewrite <- ?(assoc_L (++)); cbn;
  repeat f_equal; lia.

Section hook_properties.

Variable real_dlopen : option string → Z → Z.
Variable real_dlsym : Z → string → Real (option Z).
Variable _dl_sym : Z → string → Z.
Variable dladdr : Z → option string.
Variable getenv : string → string.
Variables dlopen_addr dlsym_addr : Z.
Variable original_default : bool.

(** What a call of [dlopen] leaves of the execution mode, of the counter
    of [dlsym], and of the library set *)
Lemma dlopen_state (file : option string) (mode : Z) (w : Loader) :
  let w' := (dlopen real_dlopen file mode w).2 in
  native w' = native w
  ∧ recurs_count w' = recurs_count w
  ∧ library_set w'
    = match file with
      | Some f =>
          if negb (native w) && negb (denied f)
             && bool_decide (real_dlopen file mode ≠ nullptr)
          then {[f]} ∪ library_set w
          else library_set w
      | None => library_set w
      end.
Proof.
  unfold denied, deny_list, mentions. run_dl.
  destruct w as [libs od os rc sf nat err evs]; cbn in *.
  destruct file as [f|]; cbn; rewrite ?orb_false_r; split_run; done.
Qed.

(** What [dlopen] returns for a path, in intercepted mode *)
Lemma dlopen_result (file : string) (mode : Z) (w : Loader) :
  native w = false →
  (dlopen real_dlopen (Some file) mode w).1
  = Some (if denied file then nullptr else real_dlopen (Some file) mode).
Proof.
  unfold denied, deny_list, mentions. run_dl.
  destruct w as [libs od os rc sf nat err evs]; cbn in *. intros ->.
  rewrite ?orb_false_r; split_run; done.
Qed.

Lemma during_dlerror d c n t :
  triple (during d c n t) dlerror (λ _, during d c n t).
Proof. unfold dlerror. repeat triple_step. done. Qed.

Lemma during_debuglogstdio d c n t warning text :
  triple (during d c n t) (debuglogstdio warning text) (λ _, during d c n t).
Proof. unfold debuglogstdio. triple_step. Qed.

Lemma during_call_orig_dlopen d c n t file mode :
  triple (during d c n t) (call_orig_dlopen real_dlopen file mode)
    (λ _, during d c n t).
Proof. unfold call_orig_dlopen. repeat triple_step. done. Qed.

Lemma during_add_lib d c n t file :
  triple (during d c n t) (add_lib file) (λ _, during d c n t).
Proof. unfold add_lib. repeat triple_step. done. Qed.

#[local] Hint Resolve during_dlerror during_debuglogstdio
  during_call_orig_dlopen during_add_lib : triples.

Lemma during_dlopen d c n t file mode :
  triple (during d c n t) (dlopen real_dlopen file mode) (λ _, during d c n t).
Proof. unfold dlopen. repeat triple_step; done. Qed.

Section reentered.

Variable call : Z → string → M Loader Z.
Hypothesis call_balanced : balanced call.

(** The real loader, calling back into a balanced hook, keeps the invariant *)
Lemma during_run_real {A} (r : Real A) (d c : Z) (n : bool) (t : list DlEvent) :
  0 < d →
  triple (during d c n t) (run_real call r) (λ _, during d c n t).
Proof.
  intros Hd. induction r as [a | native_call handle name k IH]; cbn.
  - by apply triple_ret.
  - apply triple_get_bind. intros w0 (Hc & _).
    apply (triple_bind _ _ _ (λ _, during d c n t)).
    { apply during_record. cbn. lia. }
    intros _. apply (triple_bind _ _ _ (λ _, during d c n t)); [| done].
    destruct native_call.
    + apply during_GlobalNative_keeps. apply during_call; [done | lia].
    + apply during_call; [done | lia].
Qed.

Lemma during_call_orig_dlsym (d c : Z) (n : bool) (t : list DlEvent)
    (handle : Z) (name : string) :
  0 < d →
  triple (during d c n t) (call_orig_dlsym real_dlsym call handle name)
    (λ _, during d c n t).
Proof.
  intros Hd. unfold call_orig_dlsym.
  pose proof (during_run_real (real_dlsym handle name) d c n t Hd).
  repeat triple_step; done.
Qed.

Lemma during_find_sym (d c : Z) (n : bool) (t : list DlEvent)
    (name : string) (original : bool) :
  0 < d →
  triple (during d c n t) (find_sym real_dlsym dladdr getenv call name original)
    (λ _, during d c n t).
Proof.
  intros Hd. unfold find_sym.
  pose proof (during_call_orig_dlsym d c n t RTLD_DEFAULT name Hd).
  assert (triple (during d c n t)
            (GlobalNative (record (EvGetenv "LIBTAS_LIBRARY_PATH");;
                           mret (getenv "LIBTAS_LIBRARY_PATH")))
            (λ _, during d c n t)) as Hgetenv.
  { apply during_GlobalNative_keeps. repeat triple_step; done. }
  repeat triple_step; done.
Qed.

(** The increment at entry and the decrement at exit *)
Lemma during_enter (c : Z) (n : bool) (t : list DlEvent) :
  triple (during 0 c n t)
    (modify (λ w, set_recurs_count (recurs_count w + 1) w))
    (λ _, during 1 c n t).
Proof.
  apply triple_modify. intros w Hw. pose proof Hw as (Hc & _).
  replace (recurs_count w + 1) with (c + 1) by lia. by eapply during_step.
Qed.

Lemma during_leave (c : Z) (n : bool) (t : list DlEvent) :
  triple (during 1 c n t) leave (λ _, during 0 c n t).
Proof.
  apply triple_modify. intros w Hw. pose proof Hw as (Hc & _).
  replace (recurs_count w - 1) with (c + 0) by lia. by eapply during_step.
Qed.

(** The body of [dlsym] is balanced if the hook it is re-entered by is *)
Lemma dlsym_body_balanced :
  balanced (dlsym_body real_dlopen real_dlsym _dl_sym dladdr getenv
              dlopen_addr dlsym_addr original_default call).
Proof.
  intros handle name c n t. unfold dlsym_body.
  pose proof (during_enter c n t) as Henter.
  pose proof (during_leave c n t) as Hleave.
  pose proof (during_leave c true t) as Hleave_native.
  pose proof (λ h, during_call_orig_dlsym 1 c n t h name Z.lt_0_1) as Horig.
  pose proof (λ h, during_call_orig_dlsym 1 c true t h name Z.lt_0_1)
    as Horig_native.
  pose proof (during_find_sym 1 c n t name original_default Z.lt_0_1) as Hfind.
  pose proof (during_dlopen 1 c true t (Some "libc.so.6") RTLD_LAZY) as Hopen.
  do 6 triple_step.
  - (* native mode *)
    repeat triple_step; done.
  - (* intercepted mode *)
    do 3 triple_step; [repeat triple_step; done | repeat triple_step; done |].
    apply (triple_bind _ _ _
             (λ early, match early with
                       | Some _ => during 0 c n t
                       | None => during 1 c n t
                       end)).
    { triple_step; [| by apply triple_ret].
      apply (during_GlobalNative 1 c n t _
               (λ n' early, match early with
                            | Some _ => during 0 c n' t
                            | None => during 1 c n' t
                            end)).
      - repeat triple_step; done.
      - intros [ret|] w; apply during_set_native. }
    intros [ret|]; repeat triple_step; done.
Qed.

End reentered.

(** [dlsym] is balanced at every depth of re-entry *)
Lemma dlsym_balanced (depth : nat) :
  balanced (dlsym real_dlopen real_dlsym _dl_sym dladdr getenv
              dlopen_addr dlsym_addr original_default depth).
Proof.
  induction depth as [|depth IH]; cbn.
  - intros handle name c n t. apply triple_stuck.
  - by apply dlsym_body_balanced.
Qed.

(** C8, as amended.  In intercepted mode, for any handle and at any depth
    of re-entry, [dlsym] asked for "dlopen" or for "dlsym" returns the
    address of the hook of that name.  All it does besides is to fill
    [orig::dlsym] if that was not done yet, and to log the call; the
    counter is back to its value.  The calls into the real resolver made
    during the call are that one lookup, on the first use of the hook:
    once [orig::dlsym] is set, there is none. *)
Theorem dlsym_own_names (depth : nat) (handle : Z) (w : Loader) :
  native w = false →
  dlsym real_dlopen real_dlsym _dl_sym dladdr getenv dlopen_addr dlsym_addr
    original_default (S depth) handle "dlopen" w
  = (Some dlopen_addr, asked_own_name "dlopen" w)
  ∧ dlsym real_dlopen real_dlsym _dl_sym dladdr getenv dlopen_addr dlsym_addr
      original_default (S depth) handle "dlsym" w
    = (Some dlsym_addr, asked_own_name "dlsym" w)
  ∧ ∀ name, name = "dlopen" ∨ name = "dlsym" →
      ∃ evs,
        events (dlsym real_dlopen real_dlsym _dl_sym dladdr getenv dlopen_addr
                  dlsym_addr original_default (S depth) handle name w).2
        = events w ++ evs
        ∧ List.filter is_resolution evs = bootstrap "dlsym" (orig_dlsym w).
Proof.
  intros Hnative.
  assert (dlsym real_dlopen real_dlsym _dl_sym dladdr getenv dlopen_addr
            dlsym_addr original_default (S depth) handle "dlopen" w
          = (Some dlopen_addr, asked_own_name "dlopen" w)
          ∧ dlsym real_dlopen real_dlsym _dl_sym dladdr getenv dlopen_addr
              dlsym_addr original_default (S depth) handle "dlsym" w
            = (Some dlsym_addr, asked_own_name "dlsym" w)) as [Hopen Hsym].
  { unfold asked_own_name, bootstrap, dlsym_log.
    destruct w as [libs od os rc sf nat err evs]; cbn in *. subst nat.
    unfold dlsym_body. run_dl. split.
    - rewrite (bool_decide_eq_true_2 ("dlopen" = "dlopen")) by done.
      destruct os; finish_state.
    - rewrite (bool_decide_eq_false_2 ("dlsym" = "dlopen")) by done.
      rewrite (bool_decide_eq_true_2 ("dlsym" = "dlsym")) by done.
      destruct os; finish_state. }
  split; [exact Hopen |]. split; [exact Hsym |].
  intros name [-> | ->]; [rewrite Hopen | rewrite Hsym];
    eexists; (split; [reflexivity |]);
    unfold bootstrap; by destruct (orig_dlsym w).
Qed.

(** A call entered in native mode with a positive counter answers by the
    primitive, whatever the depth left *)
Lemma dlsym_safe_path (depth : nat) (handle : Z) (name : string) (w : Loader) :
  native w = true → recurs_count w > 0 →
  dlsym real_dlopen real_dlsym _dl_sym dladdr getenv dlopen_addr dlsym_addr
    original_default (S depth) handle name w
  = (Some (_dl_sym handle name), asked_safely handle name w).
Proof.
  intros Hnative Hre. unfold asked_safely, bootstrap.
  destruct w as [libs od os rc sf nat err evs]; cbn in *. subst nat.
  unfold dlsym_body. run_dl.
  destruct os; cbn; rewrite (bool_decide_eq_true_2 (rc > 0)) by lia;
    finish_state.
Qed.

(** C9, what the code keeps of it.  From a non-negative counter, a call
    of [dlsym] that returns leaves the counter and the execution mode as
    it found them, and every re-entry of the hook during the call
    happened with the counter above its value at entry, hence positive.
    A call entered with a positive counter returns what the minimal
    primitive [_dl_sym] finds, and calls nothing else, if it is entered
    in native mode; the source makes the switch on that path only. *)
Theorem dlsym_recursion_counter (depth : nat) (handle : Z) (name : string)
    (w : Loader) :
  0 ≤ recurs_count w →
  (∀ addr w',
     dlsym real_dlopen real_dlsym _dl_sym dladdr getenv dlopen_addr dlsym_addr
       original_default depth handle name w = (Some addr, w') →
     recurs_count w' = recurs_count w
     ∧ native w' = native w
     ∧ ∃ evs, events w' = events w ++ evs
              ∧ Forall (deeper_than (recurs_count w)) evs)
  ∧ (native w = true → recurs_count w > 0 →
     dlsym real_dlopen real_dlsym _dl_sym dladdr getenv dlopen_addr dlsym_addr
       original_default (S depth) handle name w
     = (Some (_dl_sym handle name), asked_safely handle name w)).
Proof.
  intros Hcount. split.
  - intros addr w' Hrun.
    destruct (dlsym_balanced depth handle name (recurs_count w) (native w)
                (events w) w addr w') as (Hc & Hn & Hev); [| done |].
    + repeat split; [lia |]. exists []. by rewrite (right_id_L [] (++)).
    + split; [lia | done].
  - apply dlsym_safe_path.
Qed.

End hook_properties.

(** C7.  In intercepted mode, [dlopen] of a path that contains a
    fragment of the deny list returns a null handle and leaves the
    library set as it is.  For any other path it returns what the real
    loader returns, and if that is not null the library set is the old
    one with the path added: one entry more if the path was not in it,
    and loading the same path again, whatever the real loader answers
    then, leaves the set as it is. *)
Theorem dlopen_registry (real_dlopen : option string → Z → Z)
    (file : string) (mode : Z) (w : Loader) :
  native w = false →
  let result := (dlopen real_dlopen (Some file) mode w).1 in
  let w' := (dlopen real_dlopen (Some file) mode w).2 in
  if denied file
  then result = Some nullptr ∧ library_set w' = library_set w
  else
    result = Some (real_dlopen (Some file) mode)
    ∧ (real_dlopen (Some file) mode ≠ nullptr →
       library_set w' = {[file]} ∪ library_set w
       ∧ (file ∉ library_set w → size (library_set w') = S (size (library_set w)))
       ∧ ∀ real_dlopen' mode',
           library_set (dlopen real_dlopen' (Some file) mode' w').2
           = library_set w').
Proof.
  intros Hnative result w'. subst result.
  rewrite (dlopen_result real_dlopen file mode w Hnative).
  destruct (dlopen_state real_dlopen (Some file) mode w) as (Hn & _ & Hlibs).
  fold w' in Hn, Hlibs. rewrite Hnative in Hlibs, Hn.
  destruct (denied file) eqn:Hdenied; cbn in Hlibs; [done |].
  split; [done |]. intros Hloaded.
  rewrite bool_decide_eq_true_2 in Hlibs by done.
  split; [done |]. split.
  - intros Hfresh. rewrite Hlibs, size_union by set_solver.
    by rewrite size_singleton.
  - intros real_dlopen' mode'.
    destruct (dlopen_state real_dlopen' (Some file) mode' w') as (_ & _ & ->).
    case_match; [| done].
    by rewrite Hlibs, (assoc_L (∪)), (union_idemp_L {[file]}).
Qed.

(** *** Calls that return

    With the triples, the rules by which a computation is seen to return *)

Section returning.

Context {S : Type}.

Lemma returns_ret {A} (P : S → Prop) (a : A) : returns P (mret a).
Proof. intros w _. by eexists. Qed.

Lemma returns_modify (P : S → Prop) (f : S → S) : returns P (modify f).
Proof. intros w _. by eexists. Qed.

Lemma returns_bind {A B} (P : S → Prop) (m : M S A) (k : A → M S B)
    (Q : A → S → Prop) :
  triple P m Q → returns P m → (∀ a, returns (Q a) (k a)) →
  returns P (m ≫= k).
Proof.
  intros Hm Hret Hk w HP. unfold mbind, M_bind.
  destruct (Hret w HP) as [a Ha].
  destruct (m w) as [[a'|] w1] eqn:Hrun; [| done].
  eapply Hk, Hm; done.
Qed.

Lemma returns_assoc {A B C} (P : S → Prop) (m : M S A) (k1 : A → M S B)
    (k2 : B → M S C) :
  returns P (m ≫= λ a, k1 a ≫= k2) → returns P ((m ≫= k1) ≫= k2).
Proof.
  intros Hm w HP. specialize (Hm w HP). revert Hm.
  unfold mbind, M_bind. by destruct (m w) as [[a|] w1].
Qed.

Lemma returns_ret_bind {A B} (P : S → Prop) (a : A) (k : A → M S B) :
  returns P (k a) → returns P (mret a ≫= k).
Proof. done. Qed.

Lemma returns_get_bind {B} (P : S → Prop) (k : S → M S B) :
  (∀ w0, P w0 → returns P (k w0)) → returns P (get ≫= k).
Proof. intros Hk w HP. by apply (Hk w). Qed.

Lemma returns_when (P : S → Prop) (b : bool) (m : M S unit) :
  returns P m → returns P (when b m).
Proof. destruct b; [done |]. intros _. apply returns_ret. Qed.

End returning.

Create HintDb returning.
Create HintDb staying.

#[local] Hint Resolve during_dlerror during_debuglogstdio
  during_call_orig_dlopen during_add_lib : triples.

(** The hooks' own steps always return *)
Lemma returns_record (P : Loader → Prop) (e : DlEvent) : returns P (record e).
Proof. apply returns_modify. Qed.

Lemma returns_seq {A} (P : Loader → Prop) (m1 : M Loader A) (m2 : M Loader unit) :
  triple P m1 (λ _, P) → returns P m1 → returns P m2 → returns P (m1 ;; m2).
Proof. intros H1 H2 H3. by eapply returns_bind. Qed.

#[local] Hint Resolve returns_ret returns_modify returns_record returns_when
  : returning.
#[local] Hint Extern 2 (returns _ (_ ;; _)) =>
  apply returns_seq; [solve [eauto with triples] | |] : returning.

Ltac returns_step :=
  lazymatch goal with
  | |- returns _ (mret _) => apply returns_ret
  | |- returns _ (get ≫= _) => apply returns_get_bind; intros ? ?
  | |- returns _ ((if ?b then _ else _) ≫= _) => destruct b eqn:?
  | |- returns _ ((_ ≫= _) ≫= _) => apply returns_assoc
  | |- returns _ (mret _ ≫= _) => apply returns_ret_bind
  | |- returns _ (_ ≫= _) =>
      eapply returns_bind;
      [solve [eauto with triples] | solve [eauto with returning] | intros ?]
  | |- returns _ (if ?b then _ else _) => destruct b eqn:?
  | |- returns _ (match ?x with _ => _ end) => destruct x eqn:?
  | |- returns _ _ => solve [eauto with returning]
  end.

(** [orig::dlsym], once filled, stays filled *)

Lemma stays_ret {A} (a : A) : stays_filled (mret a).
Proof. by intros w. Qed.

Lemma stays_stuck {A} : stays_filled (stuck (A := A)).
Proof. by intros w. Qed.

Lemma stays_bind {A B} (m : M Loader A) (k : A → M Loader B) :
  stays_filled m → (∀ a, stays_filled (k a)) → stays_filled (m ≫= k).
Proof.
  intros Hm Hk w Hw. unfold mbind, M_bind. specialize (Hm w Hw).
  destruct (m w) as [[a|] w1]; cbn in *; [by apply Hk | done].
Qed.

Lemma stays_get_bind {B} (k : Loader → M Loader B) :
  (∀ w, stays_filled (k w)) → stays_filled (get ≫= k).
Proof. intros Hk w. apply Hk. Qed.

Lemma stays_modify (f : Loader → Loader) :
  (∀ w, filled w → filled (f w)) → stays_filled (modify f).
Proof. intros Hf w. apply Hf. Qed.

Lemma stays_record (e : DlEvent) : stays_filled (record e).
Proof. by intros w. Qed.

Lemma stays_when (b : bool) (m : M Loader unit) :
  stays_filled m → stays_filled (when b m).
Proof. destruct b; [done | intros _; apply stays_ret]. Qed.

Lemma stays_GlobalNative {A} (scope : M Loader A) :
  stays_filled scope → stays_filled (GlobalNative scope).
Proof.
  intros Hscope. unfold GlobalNative.
  apply stays_get_bind; intros w0.
  apply stays_bind; [by apply stays_modify |]; intros _.
  apply stays_bind; [done |]; intros a.
  apply stays_bind; [by apply stays_modify | intros _; apply stays_ret].
Qed.

Ltac stays_step :=
  lazymatch goal with
  | |- stays_filled (get ≫= _) => apply stays_get_bind; intros ?
  | |- stays_filled (GlobalNative _) => apply stays_GlobalNative
  | |- stays_filled (_ ≫= _) => apply stays_bind; [| intros ?]
  | |- stays_filled (mret _) => apply stays_ret
  | |- stays_filled stuck => apply stays_stuck
  | |- stays_filled (when _ _) => apply stays_when
  | |- stays_filled (record _) => apply stays_record
  | |- stays_filled (debuglogstdio _ _) => apply stays_record
  | |- stays_filled (modify _) => by apply stays_modify
  | |- stays_filled (if ?b then _ else _) => destruct b
  | |- stays_filled (match ?x with _ => _ end) => destruct x
  end.

Lemma triple_ready {A} (m : M Loader A) (d c : Z) (n : bool) (t : list DlEvent)
    (d' : Z) (n' : bool) :
  triple (during d c n t) m (λ _, during d' c n' t) → stays_filled m →
  triple (ready d c n t) m (λ _, ready d' c n' t).
Proof.
  intros Hm Hstays w a w' [Hw Hfilled] Hrun. split.
  - by eapply Hm.
  - specialize (Hstays w Hfilled). by rewrite Hrun in Hstays.
Qed.

Lemma returns_pre {S A} (P P' : S → Prop) (m : M S A) :
  returns P' m → (∀ w, P w → P' w) → returns P m.
Proof. intros Hm HP w Hw. by apply Hm, HP. Qed.

(** The hook [dlsym], when the callbacks of the real resolver are native *)

Section hooks_return.

Variable real_dlopen : option string → Z → Z.
Variable real_dlsym : Z → string → Real (option Z).
Variable _dl_sym : Z → string → Z.
Variable dladdr : Z → option string.
Variable getenv : string → string.
Variables dlopen_addr dlsym_addr : Z.
Variable original_default : bool.

Hypothesis callbacks_native : ∀ handle name, native_callbacks (real_dlsym handle name).

#[local] Abbreviation hook :=
  (dlsym real_dlopen real_dlsym _dl_sym dladdr getenv
     dlopen_addr dlsym_addr original_default).

Lemma stays_dlerror : stays_filled dlerror.
Proof. unfold dlerror. repeat stays_step. Qed.

Lemma stays_leave : stays_filled leave.
Proof. by apply stays_modify. Qed.

Lemma stays_dlopen file mode : stays_filled (dlopen real_dlopen file mode).
Proof. unfold dlopen, call_orig_dlopen, add_lib. repeat stays_step. Qed.

Section filled_reentry.

Variable call : Z → string → M Loader Z.
Hypothesis call_stays : ∀ handle name, stays_filled (call handle name).

Lemma stays_run_real {A} (r : Real A) : stays_filled (run_real call r).
Proof.
  induction r as [a | native_call handle name k IH]; cbn [run_real].
  - apply stays_ret.
  - apply stays_get_bind; intros w0.
    apply stays_bind; [apply stays_record |]; intros _.
    apply stays_bind; [| done].
    destruct native_call; [by apply stays_GlobalNative | done].
Qed.

Lemma stays_call_orig_dlsym handle name :
  stays_filled (call_orig_dlsym real_dlsym call handle name).
Proof.
  unfold call_orig_dlsym. apply stays_get_bind; intros w.
  destruct (orig_dlsym w); [| apply stays_stuck].
  apply stays_bind; [apply stays_record |]; intros _.
  apply stays_bind; [apply stays_run_real |]; intros [addr|];
    repeat stays_step.
Qed.

Lemma stays_find_sym name original :
  stays_filled (find_sym real_dlsym dladdr getenv call name original).
Proof.
  unfold find_sym.
  apply stays_bind; [apply stays_dlerror |]; intros _.
  apply stays_bind; [apply stays_call_orig_dlsym |]; intros addr.
  apply stays_bind; [apply stays_dlerror |]; intros pending.
  repeat stays_step.
Qed.

Lemma stays_dlsym_body handle name :
  stays_filled
    (dlsym_body real_dlopen real_dlsym _dl_sym dladdr getenv dlopen_addr
       dlsym_addr original_default call handle name).
Proof.
  unfold dlsym_body.
  repeat lazymatch goal with
         | |- stays_filled leave => apply stays_leave
         | |- stays_filled (dlopen _ _ _ ≫= _) =>
             apply stays_bind; [apply stays_dlopen | intros ?]
         | |- stays_filled (call_orig_dlsym _ _ _ _ ≫= _) =>
             apply stays_bind; [apply stays_call_orig_dlsym | intros ?]
         | |- stays_filled (call_orig_dlsym _ _ _ _) =>
             apply stays_call_orig_dlsym
         | |- stays_filled (find_sym _ _ _ _ _ _ ≫= _) =>
             apply stays_bind; [apply stays_find_sym | intros ?]
         | |- _ => stays_step
         end.
Qed.

End filled_reentry.

Lemma stays_dlsym (depth : nat) handle name : stays_filled (hook depth handle name).
Proof.
  revert handle name. induction depth as [|depth IH]; intros handle name.
  - apply stays_stuck.
  - cbn [dlsym]. by apply stays_dlsym_body.
Qed.

(** The steps that return from any state *)
Lemma returns_dlerror (P : Loader → Prop) : returns P dlerror.
Proof. intros w _. by eexists. Qed.

Lemma returns_debuglogstdio (P : Loader → Prop) warning text :
  returns P (debuglogstdio warning text).
Proof. apply returns_record. Qed.

Lemma returns_dlopen (P : Loader → Prop) file mode :
  returns P (dlopen real_dlopen file mode).
Proof.
  intros w _. run_dl. destruct w as [libs od os rc sf nat err evs]; cbn.
  destruct file as [f|]; split_run; by eexists.
Qed.

#[local] Hint Resolve returns_dlerror returns_debuglogstdio returns_dlopen
  : returning.
#[local] Hint Resolve stays_dlerror stays_leave stays_dlopen stays_record
  stays_ret : staying.
#[local] Hint Extern 1 (stays_filled (modify _)) =>
  by apply stays_modify : staying.
#[local] Hint Extern 1 (stays_filled (debuglogstdio _ _)) =>
  apply stays_record : staying.
#[local] Hint Extern 1 (stays_filled (when _ _)) =>
  apply stays_when : staying.
#[local] Hint Extern 2 (triple (ready _ _ _ _) _ _) =>
  apply triple_ready;
  [solve [eauto with triples] | solve [eauto with staying]] : triples.
#[local] Hint Extern 1 (triple (ready _ _ _ _) (mret _) _) =>
  by apply triple_ret : triples.

Lemma triple_true {A} (P : Loader → Prop) (m : M Loader A) :
  triple P m (λ _ _, True).
Proof. done. Qed.

Lemma returns_GlobalNative {A} d c n t (scope : M Loader A) :
  returns (during d c true t) scope →
  returns (during d c n t) (GlobalNative scope).
Proof.
  intros Hscope. unfold GlobalNative.
  apply returns_get_bind. intros w0 _.
  apply (returns_bind _ _ _ (λ _, during d c true t)).
  { apply triple_modify. intros w. apply during_set_native. }
  { apply returns_modify. }
  intros _. apply (returns_bind _ _ _ (λ _ _, True)); [done | done |].
  intros a. apply (returns_bind _ _ _ (λ _ _, True)); [done | |].
  - apply returns_modify.
  - intros _. apply returns_ret.
Qed.

Lemma returns_ready_GlobalNative {A} d c n t (scope : M Loader A) :
  returns (ready d c true t) scope →
  returns (ready d c n t) (GlobalNative scope).
Proof.
  intros Hscope. unfold GlobalNative.
  apply returns_get_bind. intros w0 _.
  apply (returns_bind _ _ _ (λ _, ready d c true t)).
  { apply triple_modify. intros w [Hw Hfilled].
    split; [by apply (during_set_native d c n t) | done]. }
  { apply returns_modify. }
  intros _. apply (returns_bind _ _ _ (λ _ _, True)); [done | done |].
  intros a. apply (returns_bind _ _ _ (λ _ _, True)); [done | |].
  - apply returns_modify.
  - intros _. apply returns_ret.
Qed.

(** A native call with a positive counter returns at once *)
Lemma returns_safe_call d c t handle name :
  0 < c + d → returns (during d c true t) (hook 1%nat handle name).
Proof.
  intros Hpos w (Hc & Hn & _).
  rewrite (dlsym_safe_path real_dlopen real_dlsym _dl_sym dladdr getenv
             dlopen_addr dlsym_addr original_default 0 handle name w)
    by (done || lia).
  by eexists.
Qed.

Lemma hook_balanced (depth : nat) : balanced (hook depth).
Proof. apply dlsym_balanced. Qed.

(** The real resolver returns, its callbacks being answered at once *)
Lemma returns_run_real {A} (r : Real A) d c n t :
  native_callbacks r → 0 < d → 0 ≤ c →
  returns (during d c n t) (run_real (hook 1%nat) r).
Proof.
  intros Hr Hd Hc.
  induction r as [a | native_call handle name k IH]; cbn [run_real].
  - apply returns_ret.
  - destruct Hr as [-> Hk].
    apply returns_get_bind. intros w0 (Hw0 & _).
    apply (returns_bind _ _ _ (λ _, during d c n t)).
    { apply during_record. cbn. lia. }
    { apply returns_record. }
    intros _. apply (returns_bind _ _ _ (λ _, during d c n t)).
    + apply during_GlobalNative_keeps, during_call;
        [apply (hook_balanced 1) | lia].
    + apply returns_GlobalNative, returns_safe_call. lia.
    + intros addr. by apply IH.
Qed.

(** A call through [orig::dlsym], the pointer being filled, returns *)
Lemma returns_call_orig_dlsym d c n t handle name :
  0 < d → 0 ≤ c →
  returns (ready d c n t) (call_orig_dlsym real_dlsym (hook 1%nat) handle name).
Proof.
  intros Hd Hc w [Hw Hfilled]. unfold call_orig_dlsym.
  unfold mbind at 1, M_bind, get. unfold filled in Hfilled. rewrite Hfilled.
  clear Hfilled. revert w Hw.
  change (returns (during d c n t)
            (record (EvOrigDlsym handle name);;
             found ← run_real (hook 1%nat) (real_dlsym handle name);
             match found with
             | Some addr => mret addr
             | None => modify (set_dl_error true);; mret nullptr
             end)).
  pose proof (returns_run_real (real_dlsym handle name) d c n t
                (callbacks_native handle name) Hd Hc).
  pose proof (during_run_real (hook 1%nat) (hook_balanced 1)
                (real_dlsym handle name) d c n t Hd).
  repeat returns_step.
Qed.

Lemma ready_call_orig_dlsym d c n t handle name :
  0 < d →
  triple (ready d c n t) (call_orig_dlsym real_dlsym (hook 1%nat) handle name)
    (λ _, ready d c n t).
Proof.
  intros Hd. apply triple_ready.
  - by apply during_call_orig_dlsym; [apply (hook_balanced 1) |].
  - apply stays_call_orig_dlsym. intros h nm. apply stays_dlsym.
Qed.

Lemma ready_getenv d c n t :
  triple (ready d c n t)
    (GlobalNative (record (EvGetenv "LIBTAS_LIBRARY_PATH");;
                   mret (getenv "LIBTAS_LIBRARY_PATH")))
    (λ _, ready d c n t).
Proof.
  apply triple_ready.
  - apply during_GlobalNative_keeps.
    apply (triple_bind _ _ _ (λ _, during d c true t)); [by apply during_record |].
    intros _. by apply triple_ret.
  - repeat stays_step.
Qed.

Lemma returns_find_sym d c n t name original :
  0 < d → 0 ≤ c →
  returns (ready d c n t)
    (find_sym real_dlsym dladdr getenv (hook 1%nat) name original).
Proof.
  intros Hd Hc. unfold find_sym.
  pose proof (returns_call_orig_dlsym d c n t RTLD_DEFAULT name Hd Hc).
  pose proof (ready_call_orig_dlsym d c n t RTLD_DEFAULT name Hd).
  pose proof (ready_getenv d c n t) as Hgetenv.
  assert (returns (ready d c n t)
            (GlobalNative (record (EvGetenv "LIBTAS_LIBRARY_PATH");;
                           mret (getenv "LIBTAS_LIBRARY_PATH")))) as Hgetenv'.
  { apply returns_ready_GlobalNative. repeat returns_step. }
  repeat returns_step.
Qed.

(** The first step of [dlsym] leaves [orig::dlsym] filled *)
Lemma ready_bootstrap c n t (w0 : Loader) :
  during 0 c n t w0 →
  triple (λ w, w = w0)
    (when (negb (orig_dlsym w0))
       (record (EvBootstrap "dlsym");; modify (set_orig_dlsym true)))
    (λ _, ready 0 c n t).
Proof.
  intros Hw w [] w' -> Hrun.
  destruct (orig_dlsym w0) eqn:Hfilled; cbn in Hrun; injection Hrun as <-.
  - by split.
  - destruct Hw as (Hcount & Hn & evs & Hev & Hevs).
    split; [| done]. repeat split; [done.. |].
    exists (evs ++ [EvBootstrap "dlsym"]); cbn. split.
    + by rewrite Hev, (assoc_L (++)).
    + apply Forall_app. split; [done |]. by apply Forall_singleton.
Qed.

Lemma ready_GlobalNative {A} (d c : Z) (n : bool) (t : list DlEvent)
    (scope : M Loader A) (Q : bool → A → Loader → Prop) :
  triple (ready d c true t) scope (Q true) →
  (∀ a w, Q true a w → Q n a (set_native n w)) →
  triple (ready d c n t) (GlobalNative scope) (Q n).
Proof.
  intros Hscope HQ. unfold GlobalNative.
  apply triple_get_bind. intros w0 ((_ & Hn & _) & _).
  apply (triple_bind _ _ _ (λ _, ready d c true t)).
  { apply triple_modify. intros w [Hw Hfilled].
    split; [by apply (during_set_native d c n t) | done]. }
  intros _. apply (triple_bind _ _ _ (Q true)); [exact Hscope |]. intros a.
  apply (triple_bind _ _ _ (λ _, Q n a)).
  { apply triple_modify. intros w Hw. rewrite Hn. by apply HQ. }
  intros _. by apply triple_ret.
Qed.

Lemma returns_get_bind_eq {B} (P : Loader → Prop) (k : Loader → M Loader B) :
  (∀ w0, P w0 → returns (λ w, w = w0) (k w0)) → returns P (get ≫= k).
Proof. intros Hk w HP. by apply (Hk w). Qed.

Lemma returns_dlsym_body c n t handle name :
  0 ≤ c →
  returns (during 0 c n t)
    (dlsym_body real_dlopen real_dlsym _dl_sym dladdr getenv dlopen_addr
       dlsym_addr original_default (hook 1%nat) handle name).
Proof.
  intros Hc. unfold dlsym_body.
  apply returns_get_bind_eq. intros w0 Hw0.
  apply (returns_bind _ _ _ (λ _, ready 0 c n t)).
  { by apply ready_bootstrap. }
  { intros w ->. destruct (orig_dlsym w0); by eexists. }
  intros _. clear w0 Hw0.
  assert (∀ h nm, stays_filled (hook 1%nat h nm)) as Hstays
    by (intros h nm; apply stays_dlsym).
  pose proof (triple_ready _ _ _ _ _ _ _ (during_enter c n t)
                ltac:(by apply stays_modify)) as Henter.
  pose proof (triple_ready _ _ _ _ _ _ _ (during_leave c n t) stays_leave)
    as Hleave.
  pose proof (triple_ready _ _ _ _ _ _ _ (during_leave c true t) stays_leave)
    as Hleave_native.
  pose proof (λ h, ready_call_orig_dlsym 1 c n t h name Z.lt_0_1) as Horig.
  pose proof (λ h, ready_call_orig_dlsym 1 c true t h name Z.lt_0_1)
    as Horig_native.
  pose proof (triple_ready _ _ _ _ _ _ _
                (during_find_sym real_dlsym dladdr getenv (hook 1%nat)
                   (hook_balanced 1) 1 c n t name original_default Z.lt_0_1)
                (stays_find_sym (hook 1%nat) Hstays name original_default))
    as Hfind.
  pose proof (triple_ready _ _ _ _ _ _ _
                (during_dlopen real_dlopen 1 c true t (Some "libc.so.6") RTLD_LAZY)
                (stays_dlopen (Some "libc.so.6") RTLD_LAZY))
    as Hopen.
  pose proof (λ h, returns_call_orig_dlsym 1 c n t h name Z.lt_0_1 Hc) as Rorig.
  pose proof (λ h, returns_call_orig_dlsym 1 c true t h name Z.lt_0_1 Hc)
    as Rorig_native.
  pose proof (returns_find_sym 1 c n t name original_default Z.lt_0_1 Hc)
    as Rfind.
  assert (∀ P : Loader → Prop, returns P leave) as Rleave
    by (intros P; apply returns_modify).
  do 4 returns_step.
  - (* native mode *)
    repeat returns_step.
  - (* intercepted mode *)
    do 3 returns_step; [repeat returns_step | repeat returns_step |].
    apply (returns_bind _ _ _
             (λ early, match early with
                       | Some _ => ready 0 c n t
                       | None => ready 1 c n t
                       end)).
    { destruct (bool_decide (handle = RTLD_NEXT)); [| by apply triple_ret].
      apply (ready_GlobalNative 1 c n t _
               (λ n' early, match early with
                            | Some _ => ready 0 c n' t
                            | None => ready 1 c n' t
                            end)).
      - repeat triple_step; done.
      - intros [ret|] w [Hw Hfilled];
          (split; [by apply (during_set_native _ c true t) | done]). }
    { returns_step; [| apply returns_ret].
      apply returns_ready_GlobalNative. repeat returns_step. }
    intros [ret|]; repeat returns_step.
Qed.

(** X25.  The guard at work: if every callback the real [dlsym] makes is
    made in native mode, a call of the hook [dlsym] from a non-negative
    counter returns, and never needs more than one level of re-entry. *)
Theorem dlsym_returns (handle : Z) (name : string) (w : Loader) :
  0 ≤ recurs_count w →
  is_Some (hook 2%nat handle name w).1.
Proof.
  intros Hcount.
  apply (returns_dlsym_body (recurs_count w) (native w) (events w) handle name
           Hcount w).
  repeat split; [lia |]. exists []. by rewrite (right_id_L [] (++)).
Qed.

End hooks_return.


(** *** The example process *)

(** A non-native callback from inside the real resolver is not guarded by
    the counter: if the real [dlsym] keeps asking the hook for the symbol
    it is resolving, in intercepted mode, no depth of re-entry is enough
    for the call to return. *)
Lemma dlsym_intercepted_reentry_diverges (depth : nat) (handle : Z) (w : Loader) :
  native w = false →
  (example_dlsym looping_dlsym depth handle "malloc" w).1 = None.
Proof.
  unfold example_dlsym. revert handle w.
  induction depth as [|depth IH]; intros handle w Hnative; [done |].
  cbn [dlsym]. unfold dlsym_body, find_sym, call_orig_dlsym.
  unfold looping_dlsym in *.
  cbn [run_real].
  destruct w as [libs od os rc sf nat err evs]; cbn in *. subst nat.
  run_dl.
  rewrite (bool_decide_eq_false_2 ("malloc" = "dlopen")) by done.
  rewrite (bool_decide_eq_false_2 ("malloc" = "dlsym")) by done.
  rewrite (bool_decide_eq_false_2 ("malloc" = "localtime")) by done.
  rewrite (bool_decide_eq_false_2 ("malloc" = "localtime64")) by done.
  rewrite (bool_decide_eq_false_2 ("malloc" = "localtime_r")) by done.
  rewrite (bool_decide_eq_false_2 ("malloc" = "localtime64_r")) by done.
  rewrite (bool_decide_eq_false_2
             ("malloc" = "mono_unity_liveness_allocate_struct")) by done.
  cbn.
  destruct os, (bool_decide (handle = RTLD_NEXT)); cbn;
    match goal with
    | |- context [dlsym ?a ?b ?c ?d ?e ?f ?g ?h depth ?i ?j ?w1] =>
        generalize (IH i w1 eq_refl);
        destruct (dlsym a b c d e f g h depth i j w1) as [[addr|] w2]
    end; done.
Qed.

(** In the example process, whose allocator asks for [calloc] in native
    mode, a first call of [dlsym] returns *)
Lemma allocating_dlsym_returns :
  (∀ handle name, native_callbacks (allocating_dlsym handle name))
  ∧ 0 ≤ recurs_count fresh
  ∧ is_Some (dlsym libc_dlopen allocating_dlsym libc_dl_sym libc_dladdr
               environ 100 200 false 2 4096 "malloc" fresh).1.
Proof.
  assert (∀ handle name, native_callbacks (allocating_dlsym handle name))
    as Hnative.
  { intros handle name. split; [reflexivity |]. intros addr. exact I. }
  split; [exact Hnative |]. split; [cbn; lia |].
  apply (dlsym_returns libc_dlopen allocating_dlsym libc_dl_sym libc_dladdr
           environ 100 200 false Hnative 4096 "malloc" fresh).
  cbn; lia.
Defined.

(** The pulse audio library is refused and not recorded *)
Example dlopen_libpulse :
  (dlopen libc_dlopen (Some "/usr/lib/libpulse.so.0") RTLD_LAZY fresh).1
  = Some nullptr
  ∧ library_set (dlopen libc_dlopen (Some "/usr/lib/libpulse.so.0") RTLD_LAZY fresh).2
    = ∅
  ∧ events (dlopen libc_dlopen (Some "/usr/lib/libpulse.so.0") RTLD_LAZY fresh).2
    = [EvBootstrap "dlopen";
       EvLog false "dlopen blocked access to library /usr/lib/libpulse.so.0"].
Proof. repeat split; vm_compute; reflexivity. Qed.

Lemma dlopen_registry_witness :
  native fresh = false
  ∧ let result := (dlopen libc_dlopen (Some "libSDL2.so") RTLD_LAZY fresh).1 in
    let w' := (dlopen libc_dlopen (Some "libSDL2.so") RTLD_LAZY fresh).2 in
    if denied "libSDL2.so"
    then result = Some nullptr ∧ library_set w' = library_set fresh
    else
      result = Some (libc_dlopen (Some "libSDL2.so") RTLD_LAZY)
      ∧ (libc_dlopen (Some "libSDL2.so") RTLD_LAZY ≠ nullptr →
         library_set w' = {["libSDL2.so"]} ∪ library_set fresh
         ∧ ("libSDL2.so" ∉ library_set fresh
            → size (library_set w') = S (size (library_set fresh)))
         ∧ ∀ real_dlopen' mode',
             library_set (dlopen real_dlopen' (Some "libSDL2.so") mode' w').2
             = library_set w').
Proof.
  split; [reflexivity |].
  apply (dlopen_registry libc_dlopen "libSDL2.so" RTLD_LAZY fresh).
  reflexivity.
Defined.

(** C8, as stated, fails.  In the example process, before any call of
    [dlsym], the hook is asked for "dlopen" in intercepted mode: it
    returns its own address, and it has called into the real resolver,
    by the lookup [_dl_sym(RTLD_NEXT, "dlsym")] that fills
    [orig::dlsym]. *)
Lemma dlsym_own_name_first_use :
  native fresh = false ∧ orig_dlsym fresh = false
  ∧ (example_dlsym libc_dlsym 1 RTLD_DEFAULT "dlopen" fresh).1 = Some 100
  ∧ events (example_dlsym libc_dlsym 1 RTLD_DEFAULT "dlopen" fresh).2
    = [EvBootstrap "dlsym"; EvLog false "dlsym call with function dlopen "]
  ∧ is_resolution (EvBootstrap "dlsym") = true.
Proof. split_and!; vm_compute; reflexivity. Qed.

Lemma dlsym_own_names_witness :
  native reentered = false
  ∧ example_dlsym libc_dlsym 1 RTLD_NEXT "dlopen" reentered
    = (Some 100, asked_own_name "dlopen" reentered)
  ∧ example_dlsym libc_dlsym 1 RTLD_NEXT "dlsym" reentered
    = (Some 200, asked_own_name "dlsym" reentered)
  ∧ ∀ name, name = "dlopen" ∨ name = "dlsym" →
      ∃ evs,
        events (example_dlsym libc_dlsym 1 RTLD_NEXT name reentered).2
        = events reentered ++ evs
        ∧ List.filter is_resolution evs = bootstrap "dlsym" (orig_dlsym reentered).
Proof.
  split; [reflexivity |]. unfold example_dlsym.
  apply (dlsym_own_names libc_dlopen libc_dlsym libc_dl_sym libc_dladdr
           environ 100 200 false 0 RTLD_NEXT reentered).
  reflexivity.
Defined.

(** C9 fails of the code.  The source says of the counter: "If we detect
    a recursion, we switch to the pure dlsym() function".  The example
    process is inside a call of [dlsym], in intercepted mode, and the
    hook is entered again for "malloc": the counter is 1, the recursion
    is detected and the call is logged as safe, and yet the symbol is
    resolved by the real [dlsym], twice, not by the primitive. *)
Lemma dlsym_reentered_not_minimal :
  recurs_count reentered > 0
  ∧ native reentered = false
  ∧ (example_dlsym libc_dlsym 1 4096 "malloc" reentered).1 = Some 8192
  ∧ events (example_dlsym libc_dlsym 1 4096 "malloc" reentered).2
    = [EvLog false "dlsym call with function malloc (safe)"; EvDlerror;
       EvOrigDlsym RTLD_DEFAULT "malloc"; EvDlerror; EvDladdr 8192;
       EvGetenv "LIBTAS_LIBRARY_PATH"; EvOrigDlsym 4096 "malloc"]
  ∧ libc_dl_sym 4096 "malloc" ≠ 8192.
Proof. split_and!; try (vm_compute; reflexivity); done. Qed.

Lemma dlsym_recursion_counter_witness :
  0 ≤ recurs_count fresh
  ∧ (recurs_count (example_dlsym allocating_dlsym 2 4096 "malloc" fresh).2
     = recurs_count fresh
     ∧ native (example_dlsym allocating_dlsym 2 4096 "malloc" fresh).2
       = native fresh
     ∧ ∃ evs,
         events (example_dlsym allocating_dlsym 2 4096 "malloc" fresh).2
         = events fresh ++ evs
         ∧ Forall (deeper_than (recurs_count fresh)) evs)
  ∧ 0 ≤ recurs_count reentered_native
  ∧ native reentered_native = true
  ∧ recurs_count reentered_native > 0
  ∧ example_dlsym allocating_dlsym 1 4096 "malloc" reentered_native
    = (Some (libc_dl_sym 4096 "malloc"), asked_safely 4096 "malloc" reentered_native).
Proof.
  unfold example_dlsym.
  split; [done |]. split.
  - apply (dlsym_recursion_counter libc_dlopen allocating_dlsym libc_dl_sym
             libc_dladdr environ 100 200 false 2 4096 "malloc" fresh)
      with (addr := 8192); [done |].
    vm_compute; reflexivity.
  - split; [done |]. split; [reflexivity |]. split; [done |].
    apply (dlsym_recursion_counter libc_dlopen allocating_dlsym libc_dl_sym
             libc_dladdr environ 100 200 false 0 4096 "malloc" reentered_native);
      done.
Defined.

(** ** Part VI: further properties of the two files *)

(** *** Strings *)

Lemma string_app_cons (c : Ascii.ascii) (a b : string) :
  String c a +:+ b = String c (a +:+ b).
Proof. reflexivity. Qed.

Lemma string_app_nil_l (b : string) : "" +:+ b = b.
Proof. reflexivity. Qed.

Lemma string_app_nil_r (a : string) : a +:+ "" = a.
Proof. induction a as [|c a IH]; [done | by rewrite string_app_cons, IH]. Qed.

Lemma string_app_assoc (a b c : string) : (a +:+ b) +:+ c = a +:+ (b +:+ c).
Proof. induction a as [|x a IH]; [done | by rewrite !string_app_cons, IH]. Qed.

Lemma string_app_not_empty (a b : string) : b ≠ "" → a +:+ b ≠ "".
Proof. intros Hb. destruct a; [done | discriminate]. Qed.

Lemma string_length_app (a b : string) :
  String.length (a +:+ b) = (String.length a + String.length b)%nat.
Proof.
  induction a as [|c a IH]; [done |]. rewrite string_app_cons. cbn. by rewrite IH.
Qed.

Lemma substring_all (s : string) : String.substring 0 (String.length s) s = s.
Proof. induction s as [|c s IH]; [done |]. cbn. by rewrite IH. Qed.

Lemma substring_app (a s : string) :
  String.substring (String.length a) (String.length s) (a +:+ s) = s.
Proof.
  induction a as [|c a IH]; [apply substring_all |]. by rewrite string_app_cons.
Qed.

Lemma substring_split (n : nat) (p : string) :
  (n ≤ String.length p)%nat →
  p = String.substring 0 n p +:+ String.substring n (String.length p - n) p.
Proof.
  revert n. induction p as [|c p IH]; intros [|n] Hn; cbn in *; try lia.
  - done.
  - by rewrite substring_all.
  - rewrite string_app_cons. f_equal. apply IH. lia.
Qed.

(** The decimal form of an integer has no dot *)
Lemma pretty_N_go_no_dot (x : N) (s : string) :
  "."%char ∉ String.list_ascii_of_string s →
  "."%char ∉ String.list_ascii_of_string (pretty_N_go x s).
Proof.
  revert s. induction (N.lt_wf_0 x) as [x _ IH]; intros s Hs.
  assert (x = 0 ∨ 0 < x)%N as [->|?] by lia.
  - by rewrite pretty_N_go_0.
  - rewrite pretty_N_go_step by done. apply IH.
    { by apply N.div_lt. }
    cbn. apply not_elem_of_cons. split; [| done].
    unfold pretty_N_char. by repeat case_match.
Qed.

Lemma pretty_Z_no_dot (z : Z) :
  "."%char ∉ String.list_ascii_of_string (pretty z).
Proof.
  assert (∀ n : N, "."%char ∉ String.list_ascii_of_string (pretty n)) as HN.
  { intros n. unfold pretty, pretty_N. case_decide.
    - cbn. apply not_elem_of_cons. split; [done | apply not_elem_of_nil].
    - apply pretty_N_go_no_dot. cbn. apply not_elem_of_nil. }
  destruct z as [|p|p]; unfold pretty, pretty_Z.
  - cbn. apply not_elem_of_cons. split; [done | apply not_elem_of_nil].
  - apply HN.
  - rewrite string_app_cons, string_app_nil_l. cbn. apply not_elem_of_cons.
    split; [done | apply HN].
Qed.

(** Two strings without a separator, each followed by nothing or by the
    separator and more, are equal only part by part *)
Lemma app_separated (c : Ascii.ascii) (a a' s s' : string) :
  c ∉ String.list_ascii_of_string a → c ∉ String.list_ascii_of_string a' →
  (s = "" ∨ ∃ t, s = String c t) → (s' = "" ∨ ∃ t, s' = String c t) →
  a +:+ s = a' +:+ s' → a = a' ∧ s = s'.
Proof.
  revert a'. induction a as [|x a IH]; intros [|x' a'] Ha Ha' Hs Hs';
    rewrite ?string_app_cons, ?string_app_nil_l; cbn in *.
  - done.
  - intros ->. destruct Hs as [Hs | [t Hs]]; [done |].
    injection Hs as -> _. destruct Ha'. apply list_elem_of_here.
  - intros <-. destruct Hs' as [Hs' | [t Hs']]; [done |].
    injection Hs' as -> _. destruct Ha. apply list_elem_of_here.
  - intros Heq. injection Heq as -> Heq.
    apply not_elem_of_cons in Ha as [_ Ha], Ha' as [_ Ha'].
    destruct (IH a' Ha Ha' Hs Hs' Heq) as [-> ->]. done.
Qed.

Lemma pretty_separated (i j : Z) (s s' : string) :
  (s = "" ∨ ∃ t, s = String "." t) → (s' = "" ∨ ∃ t, s' = String "." t) →
  pretty i +:+ s = pretty j +:+ s' → i = j ∧ s = s'.
Proof.
  intros Hs Hs' Heq.
  destruct (app_separated "." (pretty i) (pretty j) s s') as [Hp ->];
    auto using pretty_Z_no_dot.
  split; [| done]. by apply (inj pretty).
Qed.

(** *** The paths and the messages of a slot *)

Lemma empty_false (s : string) : s ≠ "" → empty s = false.
Proof. intros Hs. unfold empty. by apply bool_decide_eq_false_2. Qed.

Lemma prepared_built (c : Context) (this : SaveState) : built (prepared c this).
Proof.
  unfold built, prepared, buildMessages, buildPaths; cbn. unfold empty.
  assert (∀ s, savestatedir (config c) +:+ "/" +:+ s ≠ "") as Hdir.
  { intros s. by apply string_app_not_empty. }
  repeat case_bool_decide; destruct (is_backtrack this); split_and!;
    try done; by apply string_app_not_empty.
Qed.

Lemma built_kept (c : Context) (this : SaveState) :
  built this → prepared c this = this.
Proof.
  intros (? & ? & ? & ? & ? & ? & ? & ?).
  destruct this; unfold prepared, buildMessages, buildPaths; cbn in *.
  by rewrite !empty_false.
Qed.

(** X1.  The paths and the messages of a slot are built once: after
    [buildPaths] and [buildMessages] have run, running them again, for
    whatever context (another directory, another game name), changes
    nothing. *)
Theorem prepared_cached (c c' : Context) (this : SaveState) :
  prepared c' (prepared c this) = prepared c this.
Proof. apply built_kept, prepared_built. Qed.

(** X2.  For two slots with different ids and no path given, the files
    [buildPaths] builds in one directory and for one game are all
    different: the four files of a slot are pairwise distinct, and no file
    of one slot is a file of the other. *)
Theorem slot_files_distinct (c : Context) (s1 s2 : SaveState) :
  unbuilt s1 → unbuilt s2 → id s1 ≠ id s2 →
  NoDup (slot_files (buildPaths c s1) ++ slot_files (buildPaths c s2)).
Proof.
  intros (Hp1 & Hm1 & Hg1 & Hv1) (Hp2 & Hm2 & Hg2 & Hv2) Hid.
  unfold slot_files, buildPaths; cbn.
  rewrite Hp1, Hm1, Hg1, Hv1, Hp2, Hm2, Hg2, Hv2.
  change (empty "") with true. cbn iota.
  pose (st := λ (i : Z) s,
          savestatedir (config c) +:+ "/" +:+ gamename c +:+ ".state"
            +:+ pretty i +:+ s).
  pose (mv := λ i : Z,
          savestatedir (config c) +:+ "/" +:+ gamename c +:+ ".movie"
            +:+ pretty i +:+ ".ltm").
  assert (∀ i j s s',
            (s = "" ∨ ∃ t, s = String "." t) → (s' = "" ∨ ∃ t, s' = String "." t) →
            st i s = st j s' → i = j ∧ s = s') as Hstate.
  { intros i j s s' Hs Hs' Heq. unfold st in Heq.
    apply (inj (String.app _)) in Heq. rewrite ?string_app_cons, ?string_app_nil_l in Heq.
    injection Heq as Heq. apply (inj (String.app _)) in Heq.
    injection Heq as Heq. by apply pretty_separated. }
  assert (∀ i j s, st i s ≠ mv j) as Hmovie.
  { intros i j s Heq. unfold st, mv in Heq.
    apply (inj (String.app _)) in Heq. rewrite ?string_app_cons, ?string_app_nil_l in Heq.
    injection Heq as Heq. apply (inj (String.app _)) in Heq.
    discriminate Heq. }
  assert (∀ i j, mv i = mv j → i = j) as Hmv.
  { intros i j Heq. unfold mv in Heq.
    apply (inj (String.app _)) in Heq. rewrite ?string_app_cons, ?string_app_nil_l in Heq.
    injection Heq as Heq. apply (inj (String.app _)) in Heq.
    injection Heq as Heq.
    apply pretty_separated in Heq as [? _]; eauto. }
  match goal with
  | |- NoDup ?l =>
      replace l with
        [st (id s1) ""; st (id s1) ".pm"; st (id s1) ".p"; mv (id s1);
         st (id s2) ""; st (id s2) ".pm"; st (id s2) ".p"; mv (id s2)]
        by (unfold st, mv; by rewrite ?string_app_assoc, ?string_app_nil_r)
  end.
  clearbody st mv.
  repeat (apply NoDup_cons; split;
          [rewrite ?not_elem_of_cons; split_and?; try apply not_elem_of_nil |]);
    try apply NoDup_nil_2.
  all: intros Heq.
  all: first [ by apply Hmovie in Heq
             | symmetry in Heq; by apply Hmovie in Heq
             | apply Hmv in Heq; done
             | apply Hstate in Heq as [? ?]; [done | eauto ..] ].
Qed.

(** X12.  The block of [postLoad] that sets the movie time: when the two
    nanosecond fields it reads are in range, the nanoseconds it writes
    are in range too, the movie time is the current time less the initial
    time, and the movie frame count is the current frame count. *)
Theorem update_movie_time_normalised (c : Context) :
  0 ≤ current_time_nsec c < 1000000000 →
  0 ≤ initial_time_nsec (sc (config c)) < 1000000000 →
  let c' := update_movie_time c in
  0 ≤ movie_time_nsec c' < 1000000000
  ∧ movie_time_sec c' * 1000000000 + movie_time_nsec c'
    = (current_time_sec c * 1000000000 + current_time_nsec c)
      - (initial_time_sec (sc (config c)) * 1000000000
         + initial_time_nsec (sc (config c)))
  ∧ movie_framecount (sc (config c')) = framecount c.
Proof.
  intros Hcur Hinit. unfold update_movie_time; cbn.
  case_bool_decide; cbn; split_and!; try done; lia.
Qed.

(** *** [save], [load] and [postLoad] *)

Ltac found_in Hin :=
  repeat (apply elem_of_cons in Hin as [Hin | Hin];
          [first [discriminate Hin | by injection Hin as ->] |]);
  by apply elem_of_nil in Hin.

Section coordinator_more.

Context {AllInputs : Type} `{EqDecision AllInputs}.
Variables SS_RAM OSD_MESSAGES : Z.

(** X3.  When the peer has answered, a save returns the tag of the
    answer, whatever it is.  The frame count of the slot becomes the
    current frame count if the tag is the saving-succeeded one, and is
    left alone if not; the context and the movie are as before, the
    answer is consumed, and the save has done nothing but send its
    request and receive the answer. *)
Theorem save_answer (this : SaveState) (w : Machine AllInputs) (m : Message)
    (rest : list Wire) :
  inbox w = WMsg m :: rest →
  let this' := prepared (context w) this in
  ∃ w',
    save SS_RAM OSD_MESSAGES this w
    = (Some (RetMsg m,
             if bool_decide (m = MSGB_SAVING_SUCCEEDED)
             then set_state_framecount (framecount (context w)) this'
             else this'), w')
    ∧ context w' = context w ∧ movie w' = movie w ∧ inbox w' = rest
    ∧ trace w'
      = trace w ++ save_request SS_RAM OSD_MESSAGES this' w
        ++ [EvReceiveMessage m].
Proof.
  unfold prepared, save_request. run_M.
  set (this' := buildMessages _) in *. clearbody this'.
  destruct w as [c mv f i t wr]; cbn. intros ->.
  split_run; eexists; (split; [reflexivity |]); cbn; split_and!; try done;
    by assoc_trace.
Qed.

(** X4.  When the peer has not answered with a message, a save does not
    return: it has sent its whole request, the save message last, and
    waits, without a timeout. *)
Theorem save_waits (this : SaveState) (w : Machine AllInputs) :
  (∀ m rest, inbox w ≠ WMsg m :: rest) →
  let this' := prepared (context w) this in
  (save SS_RAM OSD_MESSAGES this w).1 = None
  ∧ trace (save SS_RAM OSD_MESSAGES this w).2
    = trace w ++ save_request SS_RAM OSD_MESSAGES this' w
  ∧ inbox (save SS_RAM OSD_MESSAGES this w).2 = inbox w.
Proof.
  unfold prepared, save_request. run_M.
  set (this' := buildMessages _) in *. clearbody this'.
  destruct w as [c mv f i t wr]; cbn. intros Hno.
  destruct i as [|[m|v] rest]; [| by destruct (Hno m rest) |];
    split_run; split_and!; try done; by assoc_trace.
Qed.

(** X5.  A load always returns, with 0 or one of four error outcomes, and
    never the protocol error.  It has sent the load-state message, as the
    last thing it did, if it returns 0, and has not sent it at all if it
    returns an error.  It writes no file, and changes nothing of the
    context, of the movie or of the slot but its paths and messages. *)
Theorem load_outcomes (branch : bool) (this : SaveState) (w : Machine AllInputs) :
  ∃ r evs,
    load SS_RAM OSD_MESSAGES branch this w
    = (Some (r, prepared (context w) this), log evs w)
    ∧ r ∈ [RetZero; RetErr ENOSTATE; RetErr ENOSTATEMOVIEPREFIX;
           RetErr ENOMOVIE; RetErr EINPUTMISMATCH]
    ∧ (r = RetZero → last evs = Some (EvSendMessage MSGN_LOADSTATE))
    ∧ (r ≠ RetZero → EvSendMessage MSGN_LOADSTATE ∉ evs)
    ∧ (∀ file frames, EvSaveMovie file frames ∉ evs)
    ∧ (∀ file, EvOfstream file ∉ evs).
Proof.
  unfold prepared, log. run_M.
  set (this' := buildMessages _) in *. clearbody this'.
  destruct w as [c m f i t wr]; cbn.
  split_run; do 2 eexists; (split; [assoc_trace; reflexivity |]);
    (split; [in_list |]);
    (split; [intros Hr; first [reflexivity | discriminate Hr] |]);
    (split; [intros Hr; first [by destruct Hr | not_in_list] |]);
    split; intros; not_in_list.
Qed.

(** X6.  Outside playback, and for a branch load in any mode, a load of a
    slot whose two snapshot files are present makes no check: it returns
    0 without loading any movie.  It sends the path of the slot exactly
    when the savestates are not kept in RAM. *)
Theorem load_unchecked (branch : bool) (this : SaveState) (w : Machine AllInputs) :
  let this' := prepared (context w) this in
  snapshot_present this' w = true →
  recording (sc (config (context w))) ≠ RECORDING_READ ∨ branch = true →
  ∃ evs,
    load SS_RAM OSD_MESSAGES branch this w = (Some (RetZero, this'), log evs w)
    ∧ (∀ file, EvLoadInputs file ∉ evs)
    ∧ (EvSendMessage MSGN_SAVESTATE_PATH ∈ evs
       ↔ has_flag (savestate_settings (sc (config (context w)))) SS_RAM = false).
Proof.
  unfold prepared, snapshot_present, log. run_M.
  set (this' := buildMessages _) in *. clearbody this'.
  destruct w as [c m f i t wr]; cbn. intros Hsnap Hmode.
  apply andb_true_iff in Hsnap as [Hpm Hp].
  assert (bool_decide (recording (sc (config c)) = RECORDING_READ) && negb branch
          = false) as Hcheck.
  { destruct Hmode as [Hmode | ->]; [| by rewrite andb_false_r].
    by rewrite bool_decide_eq_false_2. }
  split_run; try congruence;
    match goal with H : has_flag _ SS_RAM = _ |- _ => rewrite H end;
    eexists; (split; [assoc_trace; reflexivity |]);
    (split; [intros ?; not_in_list |]);
    (split; [intros Hin; first [reflexivity | absurd_in Hin]
            | intros Heq; first [discriminate Heq | in_list]]).
Qed.

(** What a save that returns leaves behind *)
Lemma save_leaves (this saved : SaveState) (r : Retval) (w w1 : Machine AllInputs) :
  save SS_RAM OSD_MESSAGES this w = (Some (r, saved), w1) →
  built saved ∧ context w1 = context w ∧ movie w1 = movie w
  ∧ (movie_path saved ∉ [pagemap_path saved; pages_path saved] →
     recording (sc (config (context w))) ≠ NO_RECORDING →
     fs w1 !! movie_path saved
     = Some (MovieArchive (framecount (context w)) (input_list (movie w)))).
Proof.
  intros Hsave.
  pose proof (prepared_built (context w) this) as Hbuilt.
  revert Hsave. unfold prepared in Hbuilt. run_M.
  set (this' := buildMessages _) in *. clearbody this'.
  destruct w as [c m f i t wr]; cbn in *.
  destruct i as [|[msg|v] rest]; split_run; intros Hsave; simplify_eq/=;
    (split; [done |]); (split; [done |]); (split; [done |]);
    intros Hapart Hrec;
    try (match goal with
         | H : bool_decide _ = false |- _ =>
             apply bool_decide_eq_false in H; by destruct H
         end);
    apply not_elem_of_cons in Hapart as [Hpm Hapart];
    apply not_elem_of_cons in Hapart as [Hp _];
    rewrite ?lookup_insert_ne by done; by rewrite lookup_insert_eq.
Qed.

(** X7.  Save, then load.  A slot has been saved, its snapshot files are
    there, its movie file is as the save left it, the configuration is
    the same, and the movie has gone on from the movie that was saved (or
    is that movie).  Then a load of the slot returns 0 and ends with the
    load-state message, in every recording mode, branch or not: in
    playback the movie the save wrote passes the prefix check.  (The
    movie file must not be one of the two snapshot files, which a save to
    RAM truncates.) *)
Theorem load_after_save (branch : bool) (this saved : SaveState) (r : Retval)
    (w w1 w2 : Machine AllInputs) :
  save SS_RAM OSD_MESSAGES this w = (Some (r, saved), w1) →
  movie_path saved ∉ [pagemap_path saved; pages_path saved] →
  config (context w2) = config (context w1) →
  input_list (movie w1) `prefix_of` input_list (movie w2) →
  fs w2 !! movie_path saved = fs w1 !! movie_path saved →
  snapshot_present saved w2 = true →
  ∃ evs,
    load SS_RAM OSD_MESSAGES branch saved w2 = (Some (RetZero, saved), log evs w2)
    ∧ last evs = Some (EvSendMessage MSGN_LOADSTATE).
Proof.
  intros Hsave Hapart Hconfig Hmovie Hfile Hsnap.
  destruct (save_leaves _ _ _ _ _ Hsave) as (Hbuilt & Hc & Hm & Hfs).
  specialize (Hfs Hapart). rewrite Hc in Hconfig. rewrite Hm in Hmovie.
  rewrite <- Hfile in Hfs. clear Hsave Hfile Hc Hm Hapart w1.
  apply andb_true_iff in Hsnap as [Hpm Hp].
  unfold log. run_M. unfold isPrefix.
  destruct w2 as [c2 m2 f2 i2 t2 wr2], w as [c m f i t wr]; cbn in *.
  fold (prepared c2 saved). rewrite (built_kept _ _ Hbuilt).
  rewrite Hpm; cbn. rewrite Hp; cbn. rewrite Hconfig.
  destruct (has_flag (savestate_settings _) SS_RAM); cbn; rewrite ?Hconfig;
    destruct (recording (sc (config c))) eqn:Hrec, branch; cbn;
    rewrite ?andb_false_r, ?andb_true_r;
    rewrite ?(bool_decide_eq_false_2 (_ = RECORDING_READ)) by done;
    rewrite ?(bool_decide_eq_true_2 (_ = RECORDING_READ)) by done; cbn;
    rewrite ?Hfs by done; cbn;
    rewrite ?(bool_decide_eq_false_2 (0 < 0)) by lia;
    rewrite ?(bool_decide_eq_true_2 _ Hmovie); cbn;
    destruct (has_flag (osd _) OSD_MESSAGES); cbn;
    eexists; (split; [assoc_trace; reflexivity | reflexivity]).
Qed.

(** X8.  When the peer reports the frame count and the time, after the
    success tag or without it, the post-load returns the success tag or 0
    accordingly.  The frame count and the current time of the context are
    the three values received, in that order, and the report is consumed
    and nothing more.  In recording mode the movie frame count follows;
    in any other mode the configuration and the movie time are left
    alone.  No file is written. *)
Theorem postLoad_report (branch ok : bool) (this : SaveState)
    (w : Machine AllInputs) (frames sec nsec : Z) (rest : list Wire) :
  inbox w = (if ok then loaded frames sec nsec else not_loaded frames sec nsec)
            ++ rest →
  ∃ w',
    postLoad OSD_MESSAGES branch this w
    = (Some (if ok then RetMsg MSGB_LOADING_SUCCEEDED else RetZero), w')
    ∧ framecount (context w') = frames
    ∧ current_time_sec (context w') = sec
    ∧ current_time_nsec (context w') = nsec
    ∧ inbox w' = rest
    ∧ fs w' = fs w
    ∧ (if bool_decide (recording (sc (config (context w))) = RECORDING_WRITE)
       then movie_framecount (sc (config (context w'))) = frames
       else config (context w') = config (context w)
            ∧ movie_time_sec (context w') = movie_time_sec (context w)
            ∧ movie_time_nsec (context w') = movie_time_nsec (context w)).
Proof.
  run_M. destruct w as [c m f i t wr]; cbn. intros ->.
  destruct c as [[dir [rec ? ? ? ? ?]] ? ? ? ? ? ? ?]; cbn in *.
  unfold update_movie_time; cbn.
  destruct ok; cbn; split_run; eexists; (split; [reflexivity |]); cbn;
    split_and!; try done; case_bool_decide; try done; congruence.
Qed.

(** X9.  A post-load that returns the protocol error has changed nothing
    of the context but, possibly, the rerecord count: the frame count,
    the current time, the movie time and the configuration are as
    before.  It has written no file, and the last thing it did was to
    print the error. *)
Theorem postLoad_protocol_error (branch : bool) (this : SaveState)
    (w : Machine AllInputs) :
  (postLoad OSD_MESSAGES branch this w).1 = Some (RetErr ENOLOAD) →
  let w' := (postLoad OSD_MESSAGES branch this w).2 in
  context w'
  = set_rerecord_count (rerecord_count (context w')) (context w)
  ∧ fs w' = fs w
  ∧ last (trace w') = Some (EvCerr "Got wrong message after state loading").
Proof.
  run_M. destruct w as [c m f i t wr]; cbn.
  destruct c as [[dir [rec ? ? ? ? ?]] ? ? ? ? ? ? ?]; cbn in *.
  split_run; intros Hr; simplify_eq/=; split_and!; try done;
    by rewrite last_snoc.
Qed.

(** X10.  A post-load, whether it returns or not, reloads the movie
    exactly when the peer reports success and the mode is recording or
    the load is a branch load, and then from the movie file of the slot.
    In every other case the inputs of the movie are as before; and when
    the peer does not report success, the movie, its modification flag
    and the rerecord count are untouched and no configuration is sent. *)
Theorem postLoad_movie_reload (branch : bool) (this : SaveState)
    (w : Machine AllInputs) :
  let w' := (postLoad OSD_MESSAGES branch this w).2 in
  let reloads :=
    succeeded (inbox w)
    && (bool_decide (recording (sc (config (context w))) = RECORDING_WRITE)
        || branch) in
  ∃ evs,
    trace w' = trace w ++ evs
    ∧ (∀ file, EvLoadInputs file ∈ evs
               ↔ (reloads = true ∧ file = movie_path this))
    ∧ (reloads = false → input_list (movie w') = input_list (movie w))
    ∧ (succeeded (inbox w) = false →
       movie w' = movie w ∧ (EvSendMessage MSGN_CONFIG ∉ evs)
       ∧ rerecord_count (context w') = rerecord_count (context w)).
Proof.
  run_M. destruct w as [c m f i t wr]; cbn. unfold succeeded.
  destruct m as [inputs dirty]; cbn.
  unfold update_movie_time; cbn.
  split_run; eexists; (split; [assoc_trace; try reflexivity;
                               by rewrite (right_id_L [] (++)) |]);
    (split; [intros file; split;
             [intros Hin; first [absurd_in Hin | found_in Hin]
             | intros [Hre ->]; first [discriminate Hre | in_list] ] |]);
    (split; [intros Hre; first [discriminate Hre | done] |]);
    intros Hs; first [discriminate Hs | split_and!; try done; not_in_list].
Qed.

(** X11.  Save, then post-load.  A slot has been saved in a recording
    mode and its movie file is as the save left it.  However the movie
    was edited since, a post-load for that slot that sees the peer report
    success, in recording mode or for a branch load, leaves the movie
    with the inputs it had when the slot was saved, and not modified. *)
Theorem postLoad_restores_saved_inputs (branch : bool) (this saved : SaveState)
    (r : Retval) (w w1 w2 : Machine AllInputs) :
  save SS_RAM OSD_MESSAGES this w = (Some (r, saved), w1) →
  recording (sc (config (context w))) ≠ NO_RECORDING →
  movie_path saved ∉ [pagemap_path saved; pages_path saved] →
  fs w2 !! movie_path saved = fs w1 !! movie_path saved →
  succeeded (inbox w2) = true →
  recording (sc (config (context w2))) = RECORDING_WRITE ∨ branch = true →
  let w' := (postLoad OSD_MESSAGES branch saved w2).2 in
  input_list (movie w') = input_list (movie w)
  ∧ modifiedSinceLastStateLoad (movie w') = false.
Proof.
  intros Hsave Hrec Hapart Hfile Hok Hmode.
  destruct (save_leaves _ _ _ _ _ Hsave) as (_ & _ & _ & Hfs).
  specialize (Hfs Hapart Hrec). rewrite <- Hfile in Hfs.
  clear Hsave Hfile Hapart Hrec w1.
  assert (bool_decide (recording (sc (config (context w2))) = RECORDING_WRITE)
          || branch = true) as Hreload.
  { destruct Hmode as [Hmode | ->]; [| by rewrite orb_true_r].
    by rewrite bool_decide_eq_true_2. }
  clear Hmode. revert Hok. unfold succeeded. run_M.
  destruct w2 as [c2 m2 f2 i2 t2 wr2]; cbn in *.
  destruct i2 as [|[msg|v] rest]; try done. intros Hmsg.
  rewrite Hmsg; cbn. rewrite Hreload; cbn. rewrite Hfs; cbn.
  destruct m2 as [inputs dirty]; cbn.
  split_run; done.
Qed.

End coordinator_more.

(** *** [find_lib] and [dlopen] *)

(** The loop of [find_lib] over a sorted list stops at the least match *)
Lemma find_lib_from_first (library : string) (itrs : list string) :
  StronglySorted String.le itrs →
  let r := find_lib_from library itrs in
  (r ∈ itrs ∧ occurs_in library r
   ∧ ∀ l, l ∈ itrs → occurs_in library l → String.le r l)
  ∨ (r = "" ∧ ∀ l, l ∈ itrs → ¬ occurs_in library l).
Proof.
  induction 1 as [|itr itrs Hsorted IH Hle]; cbn.
  - right. split; [done |]. intros l Hl. by apply elem_of_nil in Hl.
  - case_bool_decide as Hfound.
    + left. split; [apply list_elem_of_here |].
      split; [by apply find_occurs |].
      intros l [-> | Hl]%elem_of_cons _; [done |].
      by apply (proj1 (Forall_forall _ _) Hle).
    + rewrite find_occurs in Hfound.
      destruct IH as [(Hin & Hocc & Hmin) | [Hr Hnone]].
      * left. split; [by apply list_elem_of_further |]. split; [done |].
        intros l [-> | Hl]%elem_of_cons Hl'; [done | by apply Hmin].
      * right. split; [done |].
        intros l [-> | Hl]%elem_of_cons; [done | by apply Hnone].
Qed.

Lemma in_order_elem (s : gset string) (l : string) : l ∈ in_order s ↔ l ∈ s.
Proof. unfold in_order. by rewrite merge_sort_Permutation, elem_of_elements. Qed.

Lemma in_order_sorted (s : gset string) : StronglySorted String.le (in_order s).
Proof. apply StronglySorted_merge_sort; apply _. Qed.

(** X13.  [find_lib] changes nothing and returns either a library of the
    set whose name contains the fragment asked for, and then the first
    such in the byte order of strings, or the empty string when no
    library of the set contains the fragment. *)
Theorem find_lib_first_match (library : string) (w : Loader) :
  ∃ r,
    find_lib library w = (Some r, w)
    ∧ ((r ∈ library_set w ∧ occurs_in library r
        ∧ ∀ l, l ∈ library_set w → occurs_in library l → String.le r l)
       ∨ (r = "" ∧ ∀ l, l ∈ library_set w → ¬ occurs_in library l)).
Proof.
  eexists. split; [reflexivity |].
  destruct (find_lib_from_first library (in_order (library_set w))
              (in_order_sorted _))
    as [(Hin & Hocc & Hmin) | [Hr Hnone]].
  - left. split; [by apply in_order_elem |]. split; [done |].
    intros l Hl. apply Hmin. by apply in_order_elem.
  - right. split; [done |]. intros l Hl. apply Hnone. by apply in_order_elem.
Qed.

Section dlopen_more.

Variable real_dlopen : option string → Z → Z.

(** X14.  [dlopen], then [find_lib].  After a library was loaded through
    the hook in intercepted mode (its path is not refused and the real
    loader returned a handle), [find_lib] asked for any fragment of its
    path answers with a recorded library that contains the fragment: the
    path itself, or one before it in the order of the set. *)
Theorem dlopen_then_find_lib (file fragment : string) (mode : Z) (w : Loader) :
  native w = false → denied file = false →
  real_dlopen (Some file) mode ≠ nullptr →
  occurs_in fragment file →
  ∃ r w',
    (dlopen real_dlopen (Some file) mode;; find_lib fragment) w = (Some r, w')
    ∧ r ∈ library_set w' ∧ occurs_in fragment r ∧ String.le r file.
Proof.
  intros Hnative Hdenied Hloaded Hocc.
  pose proof (dlopen_result real_dlopen file mode w Hnative) as Hres.
  destruct (dlopen_state real_dlopen (Some file) mode w) as (_ & _ & Hlibs).
  rewrite Hnative, Hdenied in Hlibs. cbn in Hlibs.
  rewrite bool_decide_eq_true_2 in Hlibs by done.
  unfold mbind at 1, M_bind.
  destruct (dlopen real_dlopen (Some file) mode w) as [[result|] w1];
    cbn in Hres, Hlibs; [| done].
  exists (find_lib_from fragment (in_order (library_set w1))), w1.
  split; [done |].
  assert (file ∈ in_order (library_set w1)) as Hfile.
  { rewrite in_order_elem, Hlibs. by apply elem_of_union_l, elem_of_singleton. }
  destruct (find_lib_from_first fragment (in_order (library_set w1))
              (in_order_sorted _))
    as [(Hin & Hocc' & Hmin) | [_ Hnone]].
  - split_and!; [by apply in_order_elem | done | by apply Hmin].
  - by destruct (Hnone file Hfile).
Qed.

(** X15.  In native mode [dlopen] is the real loader and nothing else:
    it returns what the real loader returns, for a refused path as for
    any other, logs nothing, records no library and installs no hook.
    All it does besides the call is to fill [orig::dlopen] if that was
    not done yet; an error is pending if the real loader failed. *)
Theorem dlopen_native (file : option string) (mode : Z) (w : Loader) :
  native w = true →
  dlopen real_dlopen file mode w
  = (Some (real_dlopen file mode),
     mkLoader (library_set w) true (orig_dlsym w) (recurs_count w) (safe w)
       true (dl_error w || bool_decide (real_dlopen file mode = nullptr))
       (events w ++ bootstrap "dlopen" (orig_dlopen w)
          ++ [EvOrigDlopen file mode])).
Proof.
  unfold bootstrap. run_dl.
  destruct w as [libs od os rc sf nat err evs]; cbn in *. intros ->.
  destruct od; cbn; case_bool_decide; cbn;
    rewrite ?orb_true_r, ?orb_false_r, <- ?(assoc_L (++)); done.
Qed.

(** X16.  [dlopen] of the null file name, the handle of the main
    program: in either mode it returns what the real loader returns and
    records no library, even when the handle is not null; in intercepted
    mode the call is logged with the name [<NULL>]. *)
Theorem dlopen_null (mode : Z) (w : Loader) :
  let w' := (dlopen real_dlopen None mode w).2 in
  (dlopen real_dlopen None mode w).1 = Some (real_dlopen None mode)
  ∧ library_set w' = library_set w
  ∧ events w'
    = events w ++ bootstrap "dlopen" (orig_dlopen w)
      ++ (if native w then [] else [EvLog false "dlopen call with file <NULL>"])
      ++ [EvOrigDlopen None mode].
Proof.
  unfold bootstrap. run_dl.
  destruct w as [libs od os rc sf nat err evs]; cbn in *.
  destruct od, nat; cbn; repeat case_bool_decide; cbn;
    rewrite <- ?(assoc_L (++)); done.
Qed.

(** X17.  In intercepted mode, [dlopen] of a refused path does nothing
    but log the refusal (and fill [orig::dlopen] on first use): the real
    loader is not called, and no error is left for [dlerror], so that a
    pending error, or none, is what the caller finds after the null
    handle. *)
Theorem dlopen_denied (file : string) (mode : Z) (w : Loader) :
  native w = false → denied file = true →
  dlopen real_dlopen (Some file) mode w
  = (Some nullptr,
     mkLoader (library_set w) true (orig_dlsym w) (recurs_count w) (safe w)
       false (dl_error w)
       (events w ++ bootstrap "dlopen" (orig_dlopen w)
          ++ [EvLog false ("dlopen blocked access to library " +:+ file)])).
Proof.
  unfold denied, deny_list, bootstrap, mentions. run_dl.
  destruct w as [libs od os rc sf nat err evs]; cbn in *. intros ->.
  rewrite orb_false_r. intros Hdenied.
  destruct od; cbn; split_run; rewrite <- ?(assoc_L (++)); done.
Qed.

(** X18.  The hook installers [dlopen] calls: the installer of a wine
    component is called exactly when the call is made in intercepted
    mode, the path is not null and not refused, the real loader returned
    a handle, and the path contains the file name of the component.  The
    installer of ntdll is never called by [dlopen]. *)
Theorem dlopen_wine_hooks (file : option string) (mode : Z) (w : Loader) :
  ∃ evs,
    events (dlopen real_dlopen file mode w).2 = events w ++ evs
    ∧ ∀ h, EvHook h ∈ evs
           ↔ negb (native w) && bool_decide (real_dlopen file mode ≠ nullptr)
             && match file, wine_component h with
                | Some f, Some component =>
                    negb (denied f) && bool_decide (is_Some (find f component))
                | _, _ => false
                end = true.
Proof.
  unfold denied, deny_list, mentions. run_dl.
  destruct w as [libs od os rc sf nat err evs]; cbn in *.
  destruct od, nat, file as [f|]; cbn;
    destruct (bool_decide (real_dlopen _ mode = nullptr)) eqn:Hnull; cbn;
    try (apply bool_decide_eq_true in Hnull;
         rewrite (bool_decide_eq_false_2 (_ ≠ nullptr)) by (by intros []));
    try (apply bool_decide_eq_false in Hnull;
         rewrite (bool_decide_eq_true_2 (_ ≠ nullptr)) by done);
    cbn;
    try destruct (bool_decide (is_Some (find f "libpulse"))); cbn;
    try destruct (bool_decide (is_Some (find f "ScreenSelector.so"))); cbn;
    try destruct (bool_decide (is_Some (find f "wined3d.dll.so"))) eqn:Hd3d; cbn;
    try destruct (bool_decide (is_Some (find f "user32.dll.so"))) eqn:Huser; cbn;
    try destruct (bool_decide (is_Some (find f "kernel32.dll.so"))) eqn:Hkernel; cbn;
    eexists;
    (split; [rewrite <- ?(assoc_L (++)); cbn; try reflexivity;
             by rewrite (right_id_L [] (++)) |]);
    intros []; cbn; rewrite ?Hd3d, ?Huser, ?Hkernel; cbn;
    (split; [intros Hin; first [reflexivity | absurd_in Hin]
            | intros Heq; first [discriminate Heq | in_list]]).
Qed.

End dlopen_more.

(** *** [find_sym] and [dlsym] *)

(** X19.  The test by which [find_sym] tells that an object is the
    library itself is the suffix test: it holds exactly when the path of
    the object ends with the value of LIBTAS_LIBRARY_PATH, for any two
    strings, the empty ones included. *)
Theorem ends_with_suffix (libpath libtasstr : string) :
  ends_with libpath libtasstr = true ↔ ∃ a, libpath = a +:+ libtasstr.
Proof.
  unfold ends_with. rewrite andb_true_iff, !bool_decide_eq_true. split.
  - intros [Hlen Hsub].
    exists (String.substring 0 (String.length libpath - String.length libtasstr)
              libpath).
    pose proof (substring_split
                  (String.length libpath - String.length libtasstr) libpath)
      as Hsplit.
    replace (String.length libpath
             - (String.length libpath - String.length libtasstr))%nat
      with (String.length libtasstr) in Hsplit by lia.
    rewrite Hsub in Hsplit. apply Hsplit. lia.
  - intros [a ->]. rewrite string_length_app. split; [lia |].
    replace (String.length a + String.length libtasstr
             - String.length libtasstr)%nat with (String.length a) by lia.
    apply substring_app.
Qed.

Ltac finish_loader :=
  unfold set_native, set_recurs_count, set_dl_error, set_safe; cbn;
  rewrite <- ?(assoc_L (++)); cbn; repeat f_equal; lia.

(** Computations that keep the library set *)

Lemma keeps_ret {A} (a : A) : keeps_libraries (mret a).
Proof. by intros w. Qed.

Lemma bind_libraries {A B} (m : M Loader A) (k : A → M Loader B) (w : Loader) :
  (∀ a, keeps_libraries (k a)) →
  library_set ((m ≫= k) w).2 = library_set (m w).2.
Proof.
  intros Hk. unfold mbind, M_bind.
  destruct (m w) as [[a|] w1]; cbn; [apply Hk | done].
Qed.

Lemma keeps_bind {A B} (m : M Loader A) (k : A → M Loader B) :
  keeps_libraries m → (∀ a, keeps_libraries (k a)) → keeps_libraries (m ≫= k).
Proof. intros Hm Hk w. by rewrite bind_libraries, Hm. Qed.

Lemma keeps_get_bind {B} (k : Loader → M Loader B) :
  (∀ w, keeps_libraries (k w)) → keeps_libraries (get ≫= k).
Proof. intros Hk w. apply Hk. Qed.

Lemma keeps_modify (f : Loader → Loader) :
  (∀ w, library_set (f w) = library_set w) → keeps_libraries (modify f).
Proof. intros Hf w. apply Hf. Qed.

Lemma keeps_record (e : DlEvent) : keeps_libraries (record e).
Proof. by intros w. Qed.

Lemma keeps_when (b : bool) (m : M Loader unit) :
  keeps_libraries m → keeps_libraries (when b m).
Proof. destruct b; [done | intros _; apply keeps_ret]. Qed.

Lemma keeps_GlobalNative {A} (scope : M Loader A) :
  keeps_libraries scope → keeps_libraries (GlobalNative scope).
Proof.
  intros Hscope. unfold GlobalNative.
  apply keeps_get_bind; intros w0.
  apply keeps_bind; [by apply keeps_modify |]; intros _.
  apply keeps_bind; [done |]; intros a.
  apply keeps_bind; [by apply keeps_modify | intros _; apply keeps_ret].
Qed.

Lemma keeps_dlerror : keeps_libraries dlerror.
Proof. by intros w. Qed.

Lemma keeps_leave : keeps_libraries leave.
Proof. by intros w. Qed.

Section dlsym_more.

Variable real_dlopen : option string → Z → Z.
Variable real_dlsym : Z → string → Real (option Z).
Variable _dl_sym : Z → string → Z.
Variable dladdr : Z → option string.
Variable getenv : string → string.
Variables dlopen_addr dlsym_addr : Z.
Variable original_default : bool.

#[local] Abbreviation hook :=
  (dlsym real_dlopen real_dlsym _dl_sym dladdr getenv
     dlopen_addr dlsym_addr original_default).

(** X20.  Once [orig::dlsym] has been filled (the hook [dlsym] has been
    called), when the real [dlsym] answers for the default handle without
    calling back, [find_sym] returns.  A non-null address it returns is
    the one the real [dlsym] found, and if that address belongs to an
    object, the path of the object ends with LIBTAS_LIBRARY_PATH exactly
    when the original was not asked for.  It returns null when the symbol
    is not found.  An error pending before the call has no part in the
    answer, and none is pending after it; the execution mode, the library
    set and the counter of [dlsym] are as before. *)
Theorem find_sym_origin (call : Z → string → M Loader Z) (name : string)
    (original : bool) (found : option Z) (w : Loader) :
  orig_dlsym w = true →
  real_dlsym RTLD_DEFAULT name = Done found →
  ∃ addr w',
    find_sym real_dlsym dladdr getenv call name original w = (Some addr, w')
    ∧ addr = arbitrate dladdr getenv original found
    ∧ (addr ≠ nullptr →
       found = Some addr
       ∧ ∀ libpath, dladdr addr = Some libpath →
           ends_with libpath (getenv "LIBTAS_LIBRARY_PATH") = negb original)
    ∧ (found = None → addr = nullptr)
    ∧ dl_error w' = false
    ∧ native w' = native w ∧ library_set w' = library_set w
    ∧ recurs_count w' = recurs_count w.
Proof.
  intros Hfilled Hfound. unfold find_sym, call_orig_dlsym, arbitrate.
  rewrite Hfound. cbn [run_real].
  run_dl. destruct w as [libs od os rc sf nat err evs]; cbn in *. subst os.
  destruct found as [a|]; cbn.
  - destruct (dladdr a) as [libpath|] eqn:Hobj; cbn.
    + case_bool_decide as Horigin; cbn; do 2 eexists; (split; [reflexivity |]);
        cbn; (split; [done |]); (split; [| split_and!; try done; congruence]).
      * by intros [].
      * intros _. split; [done |]. intros libpath' Hobj'.
        rewrite Hobj in Hobj'. injection Hobj' as <-.
        destruct original, (ends_with libpath _); done.
    + do 2 eexists. split; [reflexivity |]. cbn. split; [done |].
      split; [| split_and!; try done; congruence].
      intros _. split; [done |]. intros libpath Hobj'. congruence.
  - do 2 eexists. split; [reflexivity |]. cbn. split_and!; done.
Qed.

(** Before the first call of the hook [dlsym], [orig::dlsym] is null:
    [find_sym], which does not fill it, calls through the null pointer
    and does not return. *)
Lemma find_sym_before_dlsym (call : Z → string → M Loader Z) (name : string)
    (original : bool) (w : Loader) :
  orig_dlsym w = false →
  (find_sym real_dlsym dladdr getenv call name original w).1 = None.
Proof.
  intros Hnull. unfold find_sym, call_orig_dlsym. run_dl.
  destruct w as [libs od os rc sf nat err evs]; cbn in *. by subst os.
Qed.

(** X21.  In native mode and outside any other call of [dlsym], the hook
    is the real [dlsym]: for any name, "dlopen" and "dlsym" included, it
    returns what the real [dlsym] finds for the handle given (null, with
    an error pending, if nothing), logs nothing, and leaves the counter
    and the library set as they were. *)
Theorem dlsym_native_first_level (depth : nat) (handle : Z) (name : string)
    (found : option Z) (w : Loader) :
  native w = true → recurs_count w ≤ 0 →
  real_dlsym handle name = Done found →
  hook (S depth) handle name w
  = (Some (default nullptr found),
     mkLoader (library_set w) (orig_dlopen w) true (recurs_count w) false true
       (dl_error w || bool_decide (found = None))
       (events w ++ bootstrap "dlsym" (orig_dlsym w)
          ++ [EvOrigDlsym handle name])).
Proof.
  intros Hnative Hcount Hfound. unfold bootstrap.
  destruct w as [libs od os rc sf nat err evs]; cbn in *. subst nat.
  unfold dlsym_body, call_orig_dlsym. rewrite Hfound. cbn [run_real]. run_dl.
  destruct os, found as [addr|]; cbn;
    rewrite (bool_decide_eq_false_2 (rc > 0)) by lia; cbn;
    rewrite ?orb_true_r, ?orb_false_r; finish_state.
Qed.

(** X22.  In intercepted mode, [dlsym] asked with [RTLD_NEXT] for one of
    the four localtime functions opens libc through the real loader and
    returns what the real [dlsym] finds there.  It does so in a native
    scope: the library set is unchanged although a library was opened,
    [find_sym] is not consulted, and the mode and the counter are back to
    what they were. *)
Theorem dlsym_localtime (depth : nat) (name : string) (found : option Z)
    (w : Loader) :
  let libc := real_dlopen (Some "libc.so.6") RTLD_LAZY in
  native w = false → name ∈ localtime_family →
  real_dlsym libc name = Done found →
  hook (S depth) RTLD_NEXT name w
  = (Some (default nullptr found),
     mkLoader (library_set w) true true (recurs_count w)
       (bool_decide (recurs_count w > 0)) false
       (dl_error w || bool_decide (libc = nullptr) || bool_decide (found = None))
       (events w ++ bootstrap "dlsym" (orig_dlsym w)
          ++ [dlsym_log name (bool_decide (recurs_count w > 0))]
          ++ bootstrap "dlopen" (orig_dlopen w)
          ++ [EvOrigDlopen (Some "libc.so.6") RTLD_LAZY;
              EvOrigDlsym libc name])).
Proof.
  intros libc Hnative Hname Hfound. unfold bootstrap, dlsym_log.
  destruct w as [libs od os rc sf nat err evs]; cbn in *. subst nat.
  unfold dlsym_body, call_orig_dlsym.
  assert (name ≠ "dlopen" ∧ name ≠ "dlsym"
          ∧ bool_decide (name = "localtime") || bool_decide (name = "localtime64")
            || bool_decide (name = "localtime_r")
            || bool_decide (name = "localtime64_r") = true) as (Hn1 & Hn2 & Hn3).
  { unfold localtime_family in Hname.
    repeat (apply elem_of_cons in Hname as [-> | Hname];
            [split_and!; [done | done |];
             repeat (case_bool_decide; try done) |]).
    by apply elem_of_nil in Hname. }
  run_dl.
  rewrite (bool_decide_eq_false_2 _ Hn1), (bool_decide_eq_false_2 _ Hn2).
  rewrite (bool_decide_eq_true_2 (RTLD_NEXT = RTLD_NEXT)) by done.
  rewrite Hn3. subst libc.
  destruct os, od; cbn;
    destruct (bool_decide (real_dlopen _ _ = nullptr)); cbn;
    rewrite Hfound; cbn [run_real]; cbn;
    destruct found as [addr|]; cbn;
    rewrite ?orb_true_r, ?orb_false_r; finish_loader.
Qed.

(** The localtime remap is not taken *)
Lemma localtime_not_taken (handle : Z) (name : string) :
  (handle = RTLD_NEXT → name ∉ localtime_family) →
  bool_decide (handle = RTLD_NEXT)
  && (bool_decide (name = "localtime") || bool_decide (name = "localtime64")
      || bool_decide (name = "localtime_r")
      || bool_decide (name = "localtime64_r")) = false.
Proof.
  intros Hnext. case_bool_decide as Hh; [| done]. cbn.
  specialize (Hnext Hh). unfold localtime_family in Hnext.
  rewrite !not_elem_of_cons in Hnext. destruct Hnext as (? & ? & ? & ? & _).
  by rewrite !bool_decide_eq_false_2.
Qed.

(** X23.  In intercepted mode, for any name but those of the two hooks
    and outside the localtime remap, when the real [dlsym] answers
    without calling back: [dlsym] returns the address [find_sym] settles
    on for the default handle, and only if that is null what the real
    [dlsym] finds for the handle of the caller, which is then, and only
    then, asked for it.  The counter, the mode and the library set are
    as before; the unity flag is set exactly for the name of the mono
    liveness function, and the ntdll hooks are installed exactly for
    [__wine_process_init]. *)
Theorem dlsym_resolution (depth : nat) (handle : Z) (name : string)
    (found_default found : option Z) (w : Loader) :
  native w = false → name ≠ "dlopen" → name ≠ "dlsym" →
  (handle = RTLD_NEXT → name ∉ localtime_family) →
  real_dlsym RTLD_DEFAULT name = Done found_default →
  real_dlsym handle name = Done found →
  let hooked := arbitrate dladdr getenv original_default found_default in
  ∃ w' evs,
    hook (S depth) handle name w
    = (Some (if bool_decide (hooked = nullptr) then default nullptr found
             else hooked), w')
    ∧ recurs_count w' = recurs_count w ∧ native w' = false
    ∧ library_set w' = library_set w
    ∧ events w' = events w ++ evs
    ∧ (EvOrigDlsym handle name ∈ evs ↔ (handle = RTLD_DEFAULT ∨ hooked = nullptr))
    ∧ (EvSetUnity ∈ evs ↔ name = "mono_unity_liveness_allocate_struct")
    ∧ (EvHook hook_ntdll ∈ evs ↔ name = "__wine_process_init").
Proof.
  intros Hnative Hn1 Hn2 Hnext Hdefault Hfound hooked. subst hooked.
  pose proof (localtime_not_taken handle name Hnext) as Hfamily.
  destruct w as [libs od os rc sf nat err evs]; cbn in *. subst nat.
  unfold dlsym_body, find_sym, call_orig_dlsym, arbitrate.
  run_dl.
  rewrite (bool_decide_eq_false_2 _ Hn1), (bool_decide_eq_false_2 _ Hn2).
  rewrite Hdefault. cbn [run_real].
  destruct os; cbn;
    destruct (bool_decide (handle = RTLD_NEXT)) eqn:Hh; cbn in Hfamily |- *;
    rewrite ?Hfamily; cbn;
    destruct (bool_decide (name = "mono_unity_liveness_allocate_struct"))
      eqn:Hunity; cbn;
    rewrite Hfound; cbn [run_real];
    (destruct found_default as [a|]; cbn;
     [destruct (dladdr a) as [libpath|]; cbn;
      [destruct (bool_decide (original_default = ends_with libpath _)); cbn |] |]);
    rewrite ?(bool_decide_eq_true_2 (nullptr = nullptr)) by done; cbn;
    try destruct (bool_decide (a = nullptr)) eqn:Hnull; cbn;
    destruct found as [addr|]; cbn;
    destruct (bool_decide (name = "__wine_process_init")) eqn:Hwine; cbn;
    do 2 eexists; (split; [reflexivity |]); cbn;
    (split; [lia |]); (split; [done |]); (split; [done |]);
    (split; [rewrite <- ?(assoc_L (++)); cbn; reflexivity |]);
    repeat match goal with
           | H : bool_decide _ = true |- _ => apply bool_decide_eq_true in H
           | H : bool_decide _ = false |- _ => apply bool_decide_eq_false in H
           end;
    split_and!;
    (split;
     [intros Hin;
      repeat (apply elem_of_cons in Hin as [Hin | Hin];
              [first [discriminate Hin | assumption | done
                     | injection Hin as ->; by left | by right] |]);
      by apply elem_of_nil in Hin
     | intros Hyp;
       first [solve [in_list] | done
             | destruct Hyp as [-> | Hyp]; first [solve [in_list] | done]]]).
Qed.

(** Inside a native scope [dlopen] records nothing *)
Lemma keeps_native_dlopen {A} (file : option string) (mode : Z)
    (k : Z → M Loader A) :
  (∀ a, keeps_libraries (k a)) →
  keeps_libraries (GlobalNative (dlopen real_dlopen file mode ≫= k)).
Proof.
  intros Hk w. unfold GlobalNative.
  change (library_set
            (((dlopen real_dlopen file mode ≫= k)
              ≫= λ a, modify (set_native (native w));; mret a)
               (set_native true w)).2 = library_set w).
  rewrite bind_libraries, bind_libraries; [| done |].
  - destruct (dlopen_state real_dlopen file mode (set_native true w))
      as (_ & _ & ->).
    by destruct file.
  - intros a. apply keeps_bind; [by apply keeps_modify | intros _; apply keeps_ret].
Qed.

Section reentry.

Variable call : Z → string → M Loader Z.
Hypothesis call_keeps : ∀ handle name, keeps_libraries (call handle name).

Lemma keeps_run_real {A} (r : Real A) : keeps_libraries (run_real call r).
Proof.
  induction r as [a | native_call handle name k IH]; cbn [run_real].
  - apply keeps_ret.
  - apply keeps_get_bind; intros w0.
    apply keeps_bind; [apply keeps_record |]; intros _.
    apply keeps_bind; [| done].
    destruct native_call; [by apply keeps_GlobalNative | done].
Qed.

Lemma keeps_call_orig_dlsym (handle : Z) (name : string) :
  keeps_libraries (call_orig_dlsym real_dlsym call handle name).
Proof.
  unfold call_orig_dlsym. apply keeps_get_bind; intros w.
  destruct (orig_dlsym w); [| by intros w'].
  apply keeps_bind; [apply keeps_record |]; intros _.
  apply keeps_bind; [apply keeps_run_real |]; intros [addr|];
    [apply keeps_ret |].
  apply keeps_bind; [by apply keeps_modify | intros _; apply keeps_ret].
Qed.

Lemma keeps_find_sym (name : string) (original : bool) :
  keeps_libraries (find_sym real_dlsym dladdr getenv call name original).
Proof.
  unfold find_sym.
  apply keeps_bind; [apply keeps_dlerror |]; intros _.
  apply keeps_bind; [apply keeps_call_orig_dlsym |]; intros addr.
  apply keeps_bind; [apply keeps_dlerror |]; intros [|]; [apply keeps_ret |].
  apply keeps_bind; [apply keeps_record |]; intros _.
  destruct (dladdr addr) as [libpath|]; [| apply keeps_ret].
  apply keeps_bind.
  - apply keeps_GlobalNative.
    apply keeps_bind; [apply keeps_record | intros _; apply keeps_ret].
  - intros libtasstr. case_bool_decide; apply keeps_ret.
Qed.

Lemma keeps_dlsym_body (handle : Z) (name : string) :
  keeps_libraries
    (dlsym_body real_dlopen real_dlsym _dl_sym dladdr getenv dlopen_addr
       dlsym_addr original_default call handle name).
Proof.
  unfold dlsym_body.
  repeat lazymatch goal with
         | |- keeps_libraries (get ≫= _) => apply keeps_get_bind; intros ?
         | |- keeps_libraries (GlobalNative (if ?b then _ else _)) => destruct b
         | |- keeps_libraries (GlobalNative (dlopen _ _ _ ≫= _)) =>
             apply keeps_native_dlopen; intros ?
         | |- keeps_libraries (GlobalNative _) => apply keeps_GlobalNative
         | |- keeps_libraries (_ ≫= _) => apply keeps_bind; [| intros ?]
         | |- keeps_libraries (mret _) => apply keeps_ret
         | |- keeps_libraries (when _ _) => apply keeps_when
         | |- keeps_libraries (record _) => apply keeps_record
         | |- keeps_libraries (debuglogstdio _ _) => apply keeps_record
         | |- keeps_libraries (modify _) => by apply keeps_modify
         | |- keeps_libraries leave => apply keeps_leave
         | |- keeps_libraries (call_orig_dlsym _ _ _ _) =>
             apply keeps_call_orig_dlsym
         | |- keeps_libraries (find_sym _ _ _ _ _ _) => apply keeps_find_sym
         | |- keeps_libraries (if ?b then _ else _) => destruct b
         | |- keeps_libraries (match ?x with _ => _ end) => destruct x
         end.
Qed.

End reentry.

(** X24.  [dlsym] never changes the library set: whatever the handle and
    the name, in either mode, at any depth of re-entry, whatever the real
    loader finds and however it calls back, and whether the call returns
    or not.  The library it opens itself for the localtime functions is
    opened in a native scope and is not recorded. *)
Theorem dlsym_keeps_library_set (depth : nat) (handle : Z) (name : string)
    (w : Loader) :
  library_set (hook depth handle name w).2 = library_set w.
Proof.
  revert handle name w. induction depth as [|depth IH]; intros handle name w.
  - done.
  - cbn [dlsym]. apply keeps_dlsym_body. intros h n w'. apply IH.
Qed.

(** X26.  The counter does not guard a callback made in intercepted mode.
    If the real [dlsym], before it answers, has the hook asked for the
    symbol it is resolving without entering native mode, then in
    intercepted mode a call of the hook for any name but "dlopen" and
    "dlsym", outside the localtime remap, does not return at any depth of
    re-entry: the hook calls the real [dlsym], which calls the hook, and
    so on. *)
Theorem dlsym_unguarded_reentry (depth : nat) (handle : Z) (name : string)
    (w : Loader) :
  asks_back real_dlsym →
  native w = false → name ≠ "dlopen" → name ≠ "dlsym" →
  (handle = RTLD_NEXT → name ∉ localtime_family) →
  (hook depth handle name w).1 = None.
Proof.
  intros Hasks Hnative Hn1 Hn2. revert handle w Hnative.
  induction depth as [|depth IH]; intros handle w Hnative Hnext; [done |].
  cbn [dlsym]. unfold dlsym_body, find_sym, call_orig_dlsym.
  destruct (Hasks RTLD_DEFAULT name) as [k ->]. cbn [run_real].
  pose proof (localtime_not_taken handle name Hnext) as Hfamily.
  destruct w as [libs od os rc sf nat err evs]; cbn in *. subst nat.
  run_dl.
  rewrite (bool_decide_eq_false_2 _ Hn1), (bool_decide_eq_false_2 _ Hn2).
  destruct os; cbn;
    destruct (bool_decide (handle = RTLD_NEXT)) eqn:Hh; cbn in Hfamily |- *;
    rewrite ?Hfamily; cbn;
    destruct (bool_decide (name = "mono_unity_liveness_allocate_struct")); cbn;
    match goal with
    | |- context [dlsym ?a ?b ?c ?d ?e ?f ?g ?h depth ?i ?j ?w1] =>
        generalize (IH i w1 eq_refl ltac:(done));
        destruct (dlsym a b c d e f g h depth i j w1) as [[addr|] w2]
    end; done.
Qed.

End dlsym_more.

(** *** The theorems at work *)

Lemma slot_files_distinct_witness :
  unbuilt slot_2 ∧ unbuilt slot_3 ∧ id slot_2 ≠ id slot_3
  ∧ NoDup (slot_files (buildPaths frame_500 slot_2)
           ++ slot_files (buildPaths frame_500 slot_3)).
Proof.
  assert (unbuilt slot_2) as H2 by (repeat split; reflexivity).
  assert (unbuilt slot_3) as H3 by (repeat split; reflexivity).
  assert (id slot_2 ≠ id slot_3) as Hid by (cbn; lia).
  split; [exact H2 |]. split; [exact H3 |]. split; [exact Hid |].
  exact (slot_files_distinct frame_500 slot_2 slot_3 H2 H3 Hid).
Defined.

Lemma update_movie_time_normalised_witness :
  0 ≤ current_time_nsec clock < 1000000000
  ∧ 0 ≤ initial_time_nsec (sc (config clock)) < 1000000000
  ∧ 0 ≤ movie_time_nsec (update_movie_time clock) < 1000000000
  ∧ movie_time_sec (update_movie_time clock) * 1000000000
    + movie_time_nsec (update_movie_time clock)
    = (current_time_sec clock * 1000000000 + current_time_nsec clock)
      - (initial_time_sec (sc (config clock)) * 1000000000
         + initial_time_nsec (sc (config clock)))
  ∧ movie_framecount (sc (config (update_movie_time clock))) = framecount clock.
Proof.
  split; [cbn; lia |]. split; [cbn; lia |].
  apply (update_movie_time_normalised clock); cbn; lia.
Defined.

Lemma save_answer_witness :
  inbox before_save = [WMsg MSGB_SAVING_SUCCEEDED]
  ∧ ∃ w',
      save 2 4 slot_2 before_save
      = (Some (RetMsg MSGB_SAVING_SUCCEEDED,
               if bool_decide (MSGB_SAVING_SUCCEEDED = MSGB_SAVING_SUCCEEDED)
               then set_state_framecount (framecount (context before_save))
                      (prepared (context before_save) slot_2)
               else prepared (context before_save) slot_2), w')
      ∧ context w' = context before_save ∧ movie w' = movie before_save
      ∧ inbox w' = []
      ∧ trace w'
        = trace before_save
          ++ save_request 2 4 (prepared (context before_save) slot_2) before_save
          ++ [EvReceiveMessage MSGB_SAVING_SUCCEEDED].
Proof.
  split; [reflexivity |].
  apply (save_answer 2 4 slot_2 before_save MSGB_SAVING_SUCCEEDED []).
  reflexivity.
Defined.

Lemma save_waits_witness :
  (∀ m rest, inbox silent ≠ WMsg m :: rest)
  ∧ (save 2 4 slot_2 silent).1 = None
  ∧ trace (save 2 4 slot_2 silent).2
    = trace silent ++ save_request 2 4 (prepared (context silent) slot_2) silent
  ∧ inbox (save 2 4 slot_2 silent).2 = inbox silent.
Proof.
  assert (∀ m rest, inbox silent ≠ WMsg m :: rest) as Hsilent.
  { intros m rest. cbn. discriminate. }
  split; [exact Hsilent |].
  exact (save_waits 2 4 slot_2 silent Hsilent).
Defined.

Lemma load_unchecked_witness :
  snapshot_present (prepared (context live) saved_slot_2) live = true
  ∧ (recording (sc (config (context live))) ≠ RECORDING_READ ∨ true = true)
  ∧ ∃ evs,
      load 2 4 true saved_slot_2 live
      = (Some (RetZero, prepared (context live) saved_slot_2), log evs live)
      ∧ (∀ file, EvLoadInputs file ∉ evs)
      ∧ (EvSendMessage MSGN_SAVESTATE_PATH ∈ evs
         ↔ has_flag (savestate_settings (sc (config (context live)))) 2 = false).
Proof.
  split; [vm_compute; reflexivity |]. split; [right; reflexivity |].
  apply (load_unchecked 2 4 true saved_slot_2 live);
    [vm_compute; reflexivity | right; reflexivity].
Defined.

Lemma load_after_save_witness :
  save 2 4 slot_2 before_save
  = (Some (RetMsg MSGB_SAVING_SUCCEEDED, saved_slot_2),
     (save 2 4 slot_2 before_save).2)
  ∧ (movie_path saved_slot_2
     ∉ [pagemap_path saved_slot_2; pages_path saved_slot_2])
  ∧ config (context live) = config (context (save 2 4 slot_2 before_save).2)
  ∧ input_list (movie (save 2 4 slot_2 before_save).2)
    `prefix_of` input_list (movie live)
  ∧ fs live !! movie_path saved_slot_2
    = fs (save 2 4 slot_2 before_save).2 !! movie_path saved_slot_2
  ∧ snapshot_present saved_slot_2 live = true
  ∧ ∃ evs,
      load 2 4 false saved_slot_2 live
      = (Some (RetZero, saved_slot_2), log evs live)
      ∧ last evs = Some (EvSendMessage MSGN_LOADSTATE).
Proof.
  assert (save 2 4 slot_2 before_save
          = (Some (RetMsg MSGB_SAVING_SUCCEEDED, saved_slot_2),
             (save 2 4 slot_2 before_save).2)) as Hsave
    by (vm_compute; reflexivity).
  assert (movie_path saved_slot_2
          ∉ [pagemap_path saved_slot_2; pages_path saved_slot_2]) as Hapart
    by (vm_compute; not_in_list).
  assert (config (context live) = config (context (save 2 4 slot_2 before_save).2))
    as Hconfig by (vm_compute; reflexivity).
  assert (input_list (movie (save 2 4 slot_2 before_save).2)
          `prefix_of` input_list (movie live)) as Hmovie
    by (exists [L]; vm_compute; reflexivity).
  assert (fs live !! movie_path saved_slot_2
          = fs (save 2 4 slot_2 before_save).2 !! movie_path saved_slot_2)
    as Hfile by (vm_compute; reflexivity).
  assert (snapshot_present saved_slot_2 live = true) as Hsnap
    by (vm_compute; reflexivity).
  split_and!; try assumption.
  exact (load_after_save 2 4 false slot_2 saved_slot_2 _ before_save _ live
           Hsave Hapart Hconfig Hmovie Hfile Hsnap).
Defined.

Lemma postLoad_report_witness :
  inbox refused_load = not_loaded 512 8 0 ++ []
  ∧ ∃ w',
      postLoad 4 false saved_slot_2 refused_load = (Some RetZero, w')
      ∧ framecount (context w') = 512
      ∧ current_time_sec (context w') = 8
      ∧ current_time_nsec (context w') = 0
      ∧ inbox w' = []
      ∧ fs w' = fs refused_load
      ∧ (if bool_decide (recording (sc (config (context refused_load)))
                         = RECORDING_WRITE)
         then movie_framecount (sc (config (context w'))) = 512
         else config (context w') = config (context refused_load)
              ∧ movie_time_sec (context w') = movie_time_sec (context refused_load)
              ∧ movie_time_nsec (context w')
                = movie_time_nsec (context refused_load)).
Proof.
  split; [reflexivity |].
  apply (postLoad_report 4 false false saved_slot_2 refused_load 512 8 0 []).
  reflexivity.
Defined.

Lemma postLoad_protocol_error_witness :
  (postLoad 4 false saved_slot_2 wrong_report).1 = Some (RetErr ENOLOAD)
  ∧ context (postLoad 4 false saved_slot_2 wrong_report).2
    = set_rerecord_count
        (rerecord_count (context (postLoad 4 false saved_slot_2 wrong_report).2))
        (context wrong_report)
  ∧ fs (postLoad 4 false saved_slot_2 wrong_report).2 = fs wrong_report
  ∧ last (trace (postLoad 4 false saved_slot_2 wrong_report).2)
    = Some (EvCerr "Got wrong message after state loading").
Proof.
  split; [vm_compute; reflexivity |].
  apply (postLoad_protocol_error 4 false saved_slot_2 wrong_report).
  vm_compute; reflexivity.
Defined.

Lemma postLoad_restores_saved_inputs_witness :
  save 2 4 slot_2 before_save
  = (Some (RetMsg MSGB_SAVING_SUCCEEDED, saved_slot_2),
     (save 2 4 slot_2 before_save).2)
  ∧ recording (sc (config (context before_save))) ≠ NO_RECORDING
  ∧ (movie_path saved_slot_2
     ∉ [pagemap_path saved_slot_2; pages_path saved_slot_2])
  ∧ fs edited_and_loaded !! movie_path saved_slot_2
    = fs (save 2 4 slot_2 before_save).2 !! movie_path saved_slot_2
  ∧ succeeded (inbox edited_and_loaded) = true
  ∧ (recording (sc (config (context edited_and_loaded))) = RECORDING_WRITE
     ∨ true = true)
  ∧ input_list (movie edited_and_loaded) = [U; L]
  ∧ input_list (movie (postLoad 4 true saved_slot_2 edited_and_loaded).2)
    = input_list (movie before_save)
  ∧ modifiedSinceLastStateLoad
      (movie (postLoad 4 true saved_slot_2 edited_and_loaded).2) = false.
Proof.
  assert (save 2 4 slot_2 before_save
          = (Some (RetMsg MSGB_SAVING_SUCCEEDED, saved_slot_2),
             (save 2 4 slot_2 before_save).2)) as Hsave
    by (vm_compute; reflexivity).
  assert (recording (sc (config (context before_save))) ≠ NO_RECORDING) as Hrec
    by (cbn; discriminate).
  assert (movie_path saved_slot_2
          ∉ [pagemap_path saved_slot_2; pages_path saved_slot_2]) as Hapart
    by (vm_compute; not_in_list).
  assert (fs edited_and_loaded !! movie_path saved_slot_2
          = fs (save 2 4 slot_2 before_save).2 !! movie_path saved_slot_2)
    as Hfile by (vm_compute; reflexivity).
  assert (succeeded (inbox edited_and_loaded) = true) as Hok by reflexivity.
  assert (recording (sc (config (context edited_and_loaded))) = RECORDING_WRITE
          ∨ true = true) as Hmode by (right; reflexivity).
  split_and!; try assumption; [reflexivity | ..];
    apply (postLoad_restores_saved_inputs 2 4 true slot_2 saved_slot_2 _
             before_save _ edited_and_loaded Hsave Hrec Hapart Hfile Hok Hmode).
Defined.

Lemma dlopen_then_find_lib_witness :
  native fresh = false ∧ denied "libSDL2.so" = false
  ∧ libc_dlopen (Some "libSDL2.so") RTLD_LAZY ≠ nullptr
  ∧ occurs_in "SDL" "libSDL2.so"
  ∧ ∃ r w',
      (dlopen libc_dlopen (Some "libSDL2.so") RTLD_LAZY;; find_lib "SDL") fresh
      = (Some r, w')
      ∧ r ∈ library_set w' ∧ occurs_in "SDL" r ∧ String.le r "libSDL2.so".
Proof.
  assert (occurs_in "SDL" "libSDL2.so") as Hocc by (by exists "lib", "2.so").
  assert (libc_dlopen (Some "libSDL2.so") RTLD_LAZY ≠ nullptr) as Hloaded
    by (vm_compute; discriminate).
  split; [reflexivity |]. split; [vm_compute; reflexivity |].
  split; [exact Hloaded |]. split; [exact Hocc |].
  exact (dlopen_then_find_lib libc_dlopen "libSDL2.so" "SDL" RTLD_LAZY fresh
           eq_refl eq_refl Hloaded Hocc).
Defined.

Lemma dlopen_native_witness :
  native fresh_native = true
  ∧ dlopen libc_dlopen (Some "/usr/lib/libpulse.so.0") RTLD_LAZY fresh_native
    = (Some (libc_dlopen (Some "/usr/lib/libpulse.so.0") RTLD_LAZY),
       mkLoader (library_set fresh_native) true (orig_dlsym fresh_native)
         (recurs_count fresh_native) (safe fresh_native) true
         (dl_error fresh_native
          || bool_decide (libc_dlopen (Some "/usr/lib/libpulse.so.0") RTLD_LAZY
                          = nullptr))
         (events fresh_native ++ bootstrap "dlopen" (orig_dlopen fresh_native)
            ++ [EvOrigDlopen (Some "/usr/lib/libpulse.so.0") RTLD_LAZY])).
Proof.
  split; [reflexivity |].
  apply (dlopen_native libc_dlopen (Some "/usr/lib/libpulse.so.0") RTLD_LAZY
           fresh_native).
  reflexivity.
Defined.

Lemma dlopen_denied_witness :
  native fresh = false ∧ denied "/usr/lib/libpulse.so.0" = true
  ∧ dlopen libc_dlopen (Some "/usr/lib/libpulse.so.0") RTLD_LAZY fresh
    = (Some nullptr,
       mkLoader (library_set fresh) true (orig_dlsym fresh) (recurs_count fresh)
         (safe fresh) false (dl_error fresh)
         (events fresh ++ bootstrap "dlopen" (orig_dlopen fresh)
            ++ [EvLog false ("dlopen blocked access to library "
                             +:+ "/usr/lib/libpulse.so.0")])).
Proof.
  split; [reflexivity |]. split; [vm_compute; reflexivity |].
  apply (dlopen_denied libc_dlopen "/usr/lib/libpulse.so.0" RTLD_LAZY fresh);
    [reflexivity | vm_compute; reflexivity].
Defined.

Lemma find_sym_origin_witness :
  orig_dlsym reentered = true
  ∧ libc_dlsym RTLD_DEFAULT "malloc" = Done (Some 8192)
  ∧ ∃ addr w',
      find_sym libc_dlsym libc_dladdr environ (example_dlsym libc_dlsym 0)
        "malloc" false reentered
      = (Some addr, w')
      ∧ addr = arbitrate libc_dladdr environ false (Some 8192)
      ∧ (addr ≠ nullptr →
         Some 8192 = Some addr
         ∧ ∀ libpath, libc_dladdr addr = Some libpath →
             ends_with libpath (environ "LIBTAS_LIBRARY_PATH") = negb false)
      ∧ (Some 8192 = None → addr = nullptr)
      ∧ dl_error w' = false
      ∧ native w' = native reentered ∧ library_set w' = library_set reentered
      ∧ recurs_count w' = recurs_count reentered.
Proof.
  split; [reflexivity |]. split; [reflexivity |].
  apply (find_sym_origin libc_dlsym libc_dladdr environ
           (example_dlsym libc_dlsym 0) "malloc" false (Some 8192) reentered);
    reflexivity.
Defined.

Lemma dlsym_native_first_level_witness :
  native fresh_native = true ∧ recurs_count fresh_native ≤ 0
  ∧ libc_dlsym 4096 "dlopen" = Done (Some 8192)
  ∧ example_dlsym libc_dlsym 1 4096 "dlopen" fresh_native
    = (Some (default nullptr (Some 8192)),
       mkLoader (library_set fresh_native) (orig_dlopen fresh_native) true
         (recurs_count fresh_native) false true
         (dl_error fresh_native || bool_decide (Some 8192 = None))
         (events fresh_native ++ bootstrap "dlsym" (orig_dlsym fresh_native)
            ++ [EvOrigDlsym 4096 "dlopen"])).
Proof.
  split; [reflexivity |]. split; [cbn; lia |]. split; [reflexivity |].
  unfold example_dlsym.
  apply (dlsym_native_first_level libc_dlopen libc_dlsym libc_dl_sym libc_dladdr
           environ 100 200 false 0 4096 "dlopen" (Some 8192) fresh_native);
    [reflexivity | cbn; lia | reflexivity].
Defined.

Lemma dlsym_localtime_witness :
  native fresh = false ∧ "localtime" ∈ localtime_family
  ∧ libc_dlsym (libc_dlopen (Some "libc.so.6") RTLD_LAZY) "localtime"
    = Done (Some 8192)
  ∧ example_dlsym libc_dlsym 1 RTLD_NEXT "localtime" fresh
    = (Some (default nullptr (Some 8192)),
       mkLoader (library_set fresh) true true (recurs_count fresh)
         (bool_decide (recurs_count fresh > 0)) false
         (dl_error fresh
          || bool_decide (libc_dlopen (Some "libc.so.6") RTLD_LAZY = nullptr)
          || bool_decide (Some 8192 = None))
         (events fresh ++ bootstrap "dlsym" (orig_dlsym fresh)
            ++ [dlsym_log "localtime" (bool_decide (recurs_count fresh > 0))]
            ++ bootstrap "dlopen" (orig_dlopen fresh)
            ++ [EvOrigDlopen (Some "libc.so.6") RTLD_LAZY;
                EvOrigDlsym (libc_dlopen (Some "libc.so.6") RTLD_LAZY)
                  "localtime"])).
Proof.
  assert ("localtime" ∈ localtime_family) as Hname by apply list_elem_of_here.
  split; [reflexivity |]. split; [exact Hname |]. split; [reflexivity |].
  unfold example_dlsym.
  exact (dlsym_localtime libc_dlopen libc_dlsym libc_dl_sym libc_dladdr
           environ 100 200 false 0 "localtime" (Some 8192) fresh
           eq_refl Hname eq_refl).
Defined.

Lemma dlsym_resolution_witness :
  native fresh = false ∧ "malloc" ≠ "dlopen" ∧ "malloc" ≠ "dlsym"
  ∧ (4096 = RTLD_NEXT → "malloc" ∉ localtime_family)
  ∧ libc_dlsym RTLD_DEFAULT "malloc" = Done (Some 8192)
  ∧ libc_dlsym 4096 "malloc" = Done (Some 8192)
  ∧ ∃ w' evs,
      example_dlsym libc_dlsym 1 4096 "malloc" fresh
      = (Some (if bool_decide (arbitrate libc_dladdr environ false (Some 8192)
                               = nullptr)
               then default nullptr (Some 8192)
               else arbitrate libc_dladdr environ false (Some 8192)), w')
      ∧ recurs_count w' = recurs_count fresh ∧ native w' = false
      ∧ library_set w' = library_set fresh
      ∧ events w' = events fresh ++ evs
      ∧ (EvOrigDlsym 4096 "malloc" ∈ evs
         ↔ (4096 = RTLD_DEFAULT
            ∨ arbitrate libc_dladdr environ false (Some 8192) = nullptr))
      ∧ (EvSetUnity ∈ evs ↔ "malloc" = "mono_unity_liveness_allocate_struct")
      ∧ (EvHook hook_ntdll ∈ evs ↔ "malloc" = "__wine_process_init").
Proof.
  assert (4096 = RTLD_NEXT → "malloc" ∉ localtime_family) as Hnext
    by (intros Hh; discriminate Hh).
  assert ("malloc" ≠ "dlopen") as Hn1 by discriminate.
  assert ("malloc" ≠ "dlsym") as Hn2 by discriminate.
  split; [reflexivity |]. split; [exact Hn1 |]. split; [exact Hn2 |].
  split; [exact Hnext |]. split; [reflexivity |]. split; [reflexivity |].
  unfold example_dlsym.
  exact (dlsym_resolution libc_dlopen libc_dlsym libc_dl_sym libc_dladdr
           environ 100 200 false 0 4096 "malloc" (Some 8192) (Some 8192) fresh
           eq_refl Hn1 Hn2 Hnext eq_refl eq_refl).
Defined.

Lemma dlsym_unguarded_reentry_witness :
  asks_back looping_dlsym ∧ native fresh = false
  ∧ "malloc" ≠ "dlopen" ∧ "malloc" ≠ "dlsym"
  ∧ (4096 = RTLD_NEXT → "malloc" ∉ localtime_family)
  ∧ (example_dlsym looping_dlsym 5 4096 "malloc" fresh).1 = None.
Proof.
  assert (asks_back looping_dlsym) as Hasks.
  { intros handle name. eexists. reflexivity. }
  assert (4096 = RTLD_NEXT → "malloc" ∉ localtime_family) as Hnext
    by (intros Hh; discriminate Hh).
  assert ("malloc" ≠ "dlopen") as Hn1 by discriminate.
  assert ("malloc" ≠ "dlsym") as Hn2 by discriminate.
  split; [exact Hasks |]. split; [reflexivity |]. split; [exact Hn1 |].
  split; [exact Hn2 |]. split; [exact Hnext |].
  unfold example_dlsym.
  exact (dlsym_unguarded_reentry libc_dlopen looping_dlsym libc_dl_sym
           libc_dladdr environ 100 200 false 5 4096 "malloc" fresh
           Hasks eq_refl Hn1 Hn2 Hnext).
Defined.
